(** * A shallow embedding of the collaborative-drawing server (src/server.js)

    The server keeps two pieces of shared state, the registry [users] (a
    JavaScript [Map] keyed by socket id) and the array [drawingHistory], and
    reacts to socket.io events.  Every handler runs to completion before the
    next one starts, so a handler is a function from the state before to the
    state after together with what it did on the way: the writes to the two
    globals and the packets it emitted, in the order of the statements.

    Console output ([console.log]) and the static file server are left out:
    no handler reads them back. *)

From stdpp Require Import base option list strings pretty sorting.
From Stdlib Require Import ZArith Lia.

(** ** Values

    Payload fields are forwarded as received and never inspected, so all
    that matters about a JavaScript value is its identity.  [JUndefined] is
    what reading a missing field or an out-of-range array index yields. *)

Inductive jsval : Type :=
| JUndefined
| JNumber (n : Z)
| JString (s : string).

#[global] Instance jsval_eq_dec : EqDecision jsval.
Proof. solve_decision. Defined.

(** A socket id is the string socket.io hands out for each connection. *)
Definition SocketId : Type := string.

(** JavaScript's [e.f] when [e] may be [undefined]: reading a property of
    [undefined] raises a [TypeError]. *)
Inductive JsError : Type :=
| TypeError (what : string).

(** What a handler receives as [data].  The client decides what it sends:
    nothing at all ([undefined]), [null], or some other value.  Reading a
    property of [undefined] or [null] throws; of anything else it yields
    the property or [undefined].  So a payload is either [Nullish] or the
    properties the handler reads off it, each possibly [JUndefined]. *)
Inductive Payload (A : Type) : Type :=
| Nullish
| Fields (fields : A).
Arguments Nullish {A}.
Arguments Fields {A} fields.

(** ** Arrays *)

(** [arr[i]] for an index that is a natural number. *)
Definition array_get (arr : list string) (i : nat) : jsval :=
  match arr !! i with
  | Some s => JString s
  | None => JUndefined
  end.

(** [arr.splice(start, deleteCount)], the array left behind.  A negative
    [start] counts from the end and is clamped at 0; a [start] past the end
    is clamped to the length. *)
Definition splice {A : Type} (arr : list A) (start : Z) (deleteCount : nat) : list A :=
  let len := Z.of_nat (length arr) in
  let from := (if start <? 0 then Z.max (len + start) 0 else Z.min start len)%Z in
  take (Z.to_nat from) arr ++ drop (Z.to_nat from + deleteCount) arr.

(** ** [Map]

    A JavaScript [Map] iterates in insertion order, and [broadcastUserList]
    sends the users in that order, so the registry is an association list.
    [set] on a key that is present replaces the value where it stands; on a
    new key it appends. *)

Definition JsMap (V : Type) : Type := list (string * V).

Definition jsmap_empty {V : Type} : JsMap V := [].

Fixpoint jsmap_get {V : Type} (k : string) (m : JsMap V) : option V :=
  match m with
  | [] => None
  | (k', v) :: m' => if bool_decide (k' = k) then Some v else jsmap_get k m'
  end.

Definition jsmap_has {V : Type} (k : string) (m : JsMap V) : bool :=
  match jsmap_get k m with
  | Some _ => true
  | None => false
  end.

Fixpoint jsmap_set {V : Type} (k : string) (v : V) (m : JsMap V) : JsMap V :=
  match m with
  | [] => [(k, v)]
  | (k', v') :: m' =>
      if bool_decide (k' = k) then (k, v) :: m' else (k', v') :: jsmap_set k v m'
  end.

Fixpoint jsmap_delete {V : Type} (k : string) (m : JsMap V) : JsMap V :=
  match m with
  | [] => []
  | (k', v') :: m' =>
      if bool_decide (k' = k) then jsmap_delete k m' else (k', v') :: jsmap_delete k m'
  end.

Definition jsmap_size {V : Type} (m : JsMap V) : nat := length m.

Definition jsmap_keys {V : Type} (m : JsMap V) : list string := m.*1.

Definition jsmap_values {V : Type} (m : JsMap V) : list V := m.*2.

(** Assignment to a property of the object stored under [k]: the [Map]
    holds a reference, so the stored record changes where it stands. *)
Fixpoint jsmap_update {V : Type} (f : V → V) (k : string) (m : JsMap V) : JsMap V :=
  match m with
  | [] => []
  | (k', v) :: m' =>
      if bool_decide (k' = k) then (k', f v) :: m' else (k', v) :: jsmap_update f k m'
  end.

(** A [Map] never holds a key twice. *)
Definition jsmap_wf {V : Type} (m : JsMap V) : Prop := NoDup (jsmap_keys m).

(** ** Records *)

(** The record stored in [users] (server.js, lines 28-34). *)
Module User.
Record t : Type := mk {
  id : SocketId;
  color : jsval;
  username : string;
  cursorX : jsval;
  cursorY : jsval
}.
Definition set_cursorX (x : jsval) (u : t) : t :=
  mk (id u) (color u) (username u) x (cursorY u).
Definition set_cursorY (y : jsval) (u : t) : t :=
  mk (id u) (color u) (username u) (cursorX u) y.
End User.

(** Payload of an inbound [draw] event. *)
Module DrawData.
Record t : Type := mk { x1 : jsval; y1 : jsval; x2 : jsval; y2 : jsval; strokeWidth : jsval }.
End DrawData.

(** Payload of an inbound [erase] event. *)
Module EraseData.
Record t : Type := mk { x : jsval; y : jsval; radius : jsval }.
End EraseData.

(** Payload of an inbound [cursorMove] event. *)
Module CursorData.
Record t : Type := mk { x : jsval; y : jsval }.
End CursorData.

(** The object built by the [draw] handler (lines 44-54); [type] is
    ['draw']. *)
Module DrawCommand.
Record t : Type := mk {
  userId : SocketId;
  userColor : jsval;
  x1 : jsval;
  y1 : jsval;
  x2 : jsval;
  y2 : jsval;
  strokeWidth : jsval;
  timestamp : Z
}.
End DrawCommand.

(** The object built by the [erase] handler (lines 65-72); [type] is
    ['erase']. *)
Module EraseCommand.
Record t : Type := mk {
  userId : SocketId;
  x : jsval;
  y : jsval;
  radius : jsval;
  timestamp : Z
}.
End EraseCommand.

(** An entry of [drawingHistory]. *)
Inductive Command : Type :=
| CDraw (c : DrawCommand.t)
| CErase (c : EraseCommand.t).

Module Cmd.
Definition type (c : Command) : string :=
  match c with
  | CDraw _ => "draw"
  | CErase _ => "erase"
  end.
Definition userId (c : Command) : SocketId :=
  match c with
  | CDraw d => DrawCommand.userId d
  | CErase e => EraseCommand.userId e
  end.
Definition timestamp (c : Command) : Z :=
  match c with
  | CDraw d => DrawCommand.timestamp d
  | CErase e => EraseCommand.timestamp e
  end.
End Cmd.

(** An element of the array sent by [broadcastUserList] (lines 149-153). *)
Module UserInfo.
Record t : Type := mk { id : SocketId; username : string; color : jsval }.
End UserInfo.

(** Payload of [cursorUpdate] (lines 86-92). *)
Module CursorUpdate.
Record t : Type := mk {
  userId : SocketId;
  username : string;
  x : jsval;
  y : jsval;
  color : jsval
}.
End CursorUpdate.

(** ** Outbound packets *)

(** The events the server emits, with their payloads. *)
Inductive Message : Type :=
| loadDrawingHistory (history : list Command)
| draw (command : DrawCommand.t)
| erase (command : EraseCommand.t)
| cursorUpdate (update : CursorUpdate.t)
| undoAction (userId : SocketId) (previousHistory : list Command)
| canvasCleared
| cursorRemoved (userId : SocketId)
| userListUpdate (userList : list UserInfo.t).

(** The three ways the server addresses a packet. *)
Inductive Target : Type :=
| ToSocket (socket : SocketId)    (* socket.emit *)
| ToOthers (socket : SocketId)    (* socket.broadcast.emit *)
| ToAll.                          (* io.emit *)

Definition Packet : Type := Target * Message.

(** socket.io's delivery rule, given the sockets connected when the packet
    is emitted: [socket.emit] reaches that socket, [socket.broadcast.emit]
    every connected socket but that one, [io.emit] every connected socket. *)
Definition recipients (connected : list SocketId) (t : Target) : list SocketId :=
  match t with
  | ToSocket s => [s]
  | ToOthers s => filter (λ c, c ≠ s) connected
  | ToAll => connected
  end.

(** ** Server state and the handler monad *)

Record Server : Type := mkServer {
  users : JsMap User.t;
  drawingHistory : list Command
}.

(** The state when the process starts (lines 16 and 19). *)
Definition initial : Server := mkServer jsmap_empty [].

(** What a handler does that outlives it, one entry per statement: a write
    to the registry ([users.set], [users.delete], an assignment to a field
    of a stored record) with the registry it leaves, a write to the history
    ([push], [splice], [drawingHistory = []]) with the array it leaves, or
    an emitted packet. *)
Inductive Step : Type :=
| WroteUsers (us : JsMap User.t)
| WroteHistory (history : list Command)
| Emitted (p : Packet).

(** Running a piece of handler code: it finishes with a value and a state,
    or it throws; either way with the journal of what it did until then,
    oldest first. *)
Inductive Traced (A : Type) : Type :=
| Finished (a : A) (s : Server) (journal : list Step)
| Aborted (e : JsError) (journal : list Step).
Arguments Finished {A} a s journal.
Arguments Aborted {A} e journal.

Definition Journal (A : Type) : Type := Server → Traced A.

#[global] Instance Journal_ret : MRet Journal := λ A a s, Finished a s [].

#[global] Instance Journal_bind : MBind Journal := λ A B k m s,
  match m s with
  | Finished a s1 j1 =>
      match k a s1 with
      | Finished b s2 j2 => Finished b s2 (j1 ++ j2)
      | Aborted e j2 => Aborted e (j1 ++ j2)
      end
  | Aborted e j1 => Aborted e j1
  end.

Definition throw {A : Type} (e : JsError) : Journal A := λ _, Aborted e [].

(** Reads and writes of the two globals. *)
Definition get_users : Journal (JsMap User.t) := λ s, Finished (users s) s [].
Definition put_users (m : JsMap User.t) : Journal unit :=
  λ s, Finished tt (mkServer m (drawingHistory s)) [WroteUsers m].
Definition get_history : Journal (list Command) := λ s, Finished (drawingHistory s) s [].
Definition put_history (h : list Command) : Journal unit :=
  λ s, Finished tt (mkServer (users s) h) [WroteHistory h].

(** [socket.emit], [socket.broadcast.emit] and [io.emit].  socket.io
    encodes a packet when it is emitted, so a payload that is an array or
    an object of the server is sent as it is at that moment. *)
Definition emit (t : Target) (msg : Message) : Journal unit :=
  λ s, Finished tt s [Emitted (t, msg)].

(** [data.f]: throws when [data] is [undefined] or [null]. *)
Definition prop {A : Type} (data : Payload A) (f : A → jsval) : Journal jsval :=
  match data with
  | Nullish => throw (TypeError "data is undefined or null")
  | Fields fields => mret (f fields)
  end.

(** ** Helper functions (lines 139-167) and event handlers (lines 21-135)

    [socket_id] is the [socket.id] a handler closes over, [data] what the
    client sent with the event, [now] the value [Date.now()] returns when
    the handler runs. *)

(** The palette of [generateColor]. *)
Definition colors : list string :=
  [ "#FF6B6B"; "#4ECDC4"; "#45B7D1"; "#FFA07A";
    "#98D8C8"; "#F7DC6F"; "#BB8FCE"; "#85C1E2";
    "#F06292"; "#AB47BC"; "#7E57C2"; "#5C6BC0" ].

(** The projection [u => ({ id: u.id, username: u.username, color: u.color })]. *)
Definition user_info (u : User.t) : UserInfo.t :=
  UserInfo.mk (User.id u) (User.username u) (User.color u).

(** The loop of [findLastUserAction], entered with [i = n - 1]: it looks at
    the indices [n - 1] down to [0] and returns [-1] when [i] drops below
    [0].  Reading [.userId] off a missing entry would throw; [None] stands
    for that. *)
Fixpoint findLast_loop (history : list Command) (userId : SocketId) (n : nat) : option Z :=
  match n with
  | O => Some (-1)%Z
  | S i =>
      match history !! i with
      | Some c =>
          if bool_decide (Cmd.userId c = userId) then Some (Z.of_nat i)
          else findLast_loop history userId i
      | None => None
      end
  end.

(** The code of server.js, statement by statement. *)
Module Code.

(** [colors[users.size % colors.length]] *)
Definition generateColor : Journal jsval :=
  us ← get_users;
  mret (array_get colors (jsmap_size us mod length colors)).

Definition broadcastUserList : Journal unit :=
  us ← get_users;
  let userList := user_info <$> jsmap_values us in
  emit ToAll (userListUpdate userList).

Definition findLastUserAction (userId : SocketId) : Journal Z :=
  history ← get_history;
  match findLast_loop history userId (length history) with
  | Some i => mret i
  | None => throw (TypeError "drawingHistory[i] is undefined")
  end.

(** The body of [io.on('connection', ...)] up to the registration of the
    per-socket handlers (lines 22-40). *)
Definition on_connection (socket_id : SocketId) : Journal unit :=
  userColor ← generateColor;
  us ← get_users;
  let username := "User" +:+ pretty (jsmap_size us + 1) in
  put_users (jsmap_set socket_id (User.mk socket_id userColor username (JNumber 0) (JNumber 0)) us);;
  history ← get_history;
  emit (ToSocket socket_id) (loadDrawingHistory history);;
  broadcastUserList.

(** The fields of the object literal are evaluated in the order written:
    the registry lookup comes before the first read of [data]. *)
Definition on_draw (socket_id : SocketId) (data : Payload DrawData.t) (now : Z) : Journal unit :=
  us ← get_users;
  match jsmap_get socket_id us with
  | None => throw (TypeError "users.get(socket.id) is undefined")
  | Some user =>
      x1 ← prop data DrawData.x1;
      y1 ← prop data DrawData.y1;
      x2 ← prop data DrawData.x2;
      y2 ← prop data DrawData.y2;
      strokeWidth ← prop data DrawData.strokeWidth;
      let command := DrawCommand.mk socket_id (User.color user) x1 y1 x2 y2 strokeWidth now in
      history ← get_history;
      put_history (history ++ [CDraw command]);;
      emit (ToOthers socket_id) (draw command)
  end.

Definition on_erase (socket_id : SocketId) (data : Payload EraseData.t) (now : Z) : Journal unit :=
  x ← prop data EraseData.x;
  y ← prop data EraseData.y;
  radius ← prop data EraseData.radius;
  let command := EraseCommand.mk socket_id x y radius now in
  history ← get_history;
  put_history (history ++ [CErase command]);;
  emit (ToOthers socket_id) (erase command).

Definition on_cursorMove (socket_id : SocketId) (data : Payload CursorData.t) : Journal unit :=
  us ← get_users;
  if jsmap_has socket_id us then
    match jsmap_get socket_id us with
    | None => throw (TypeError "user is undefined")
    | Some user =>
        x ← prop data CursorData.x;
        put_users (jsmap_update (User.set_cursorX x) socket_id us);;
        y ← prop data CursorData.y;
        us ← get_users;
        put_users (jsmap_update (User.set_cursorY y) socket_id us);;
        x ← prop data CursorData.x;
        y ← prop data CursorData.y;
        emit (ToOthers socket_id)
          (cursorUpdate (CursorUpdate.mk socket_id (User.username user) x y (User.color user)))
    end
  else mret tt.

Definition on_undo (socket_id : SocketId) : Journal unit :=
  lastUserActionIndex ← findLastUserAction socket_id;
  if bool_decide (lastUserActionIndex ≠ (-1)%Z) then
    history ← get_history;
    put_history (splice history lastUserActionIndex 1);;
    history ← get_history;
    emit ToAll (undoAction socket_id history)
  else mret tt.

(** [redo] only writes to the console. *)
Definition on_redo (socket_id : SocketId) : Journal unit := mret tt.

Definition on_clearCanvas (socket_id : SocketId) : Journal unit :=
  put_history [];;
  emit ToAll canvasCleared.

Definition on_disconnect (socket_id : SocketId) : Journal unit :=
  us ← get_users;
  put_users (jsmap_delete socket_id us);;
  emit ToAll (cursorRemoved socket_id);;
  broadcastUserList.

End Code.

(** ** What a run of a handler leaves: state and packets *)

(** A run seen from outside: the value, the state left and the packets
    emitted (oldest first), or the error thrown. *)
Inductive Outcome (A : Type) : Type :=
| Returns (a : A) (s : Server) (out : list Packet)
| Throws (e : JsError).
Arguments Returns {A} a s out.
Arguments Throws {A} e.

Definition M (A : Type) : Type := Server → Outcome A.

(** The packets of a journal, in order. *)
Definition packets (journal : list Step) : list Packet :=
  omap (λ st, match st with Emitted p => Some p | _ => None end) journal.

(** A run with its journal reduced to the packets. *)
Definition observed {A : Type} (code : Journal A) : M A :=
  λ s, match code s with
       | Finished a s' journal => Returns a s' (packets journal)
       | Aborted e _ => Throws e
       end.

Definition generateColor : M jsval := observed Code.generateColor.
Definition broadcastUserList : M unit := observed Code.broadcastUserList.
Definition findLastUserAction (userId : SocketId) : M Z :=
  observed (Code.findLastUserAction userId).
Definition on_connection (socket_id : SocketId) : M unit :=
  observed (Code.on_connection socket_id).
Definition on_draw (socket_id : SocketId) (data : Payload DrawData.t) (now : Z) : M unit :=
  observed (Code.on_draw socket_id data now).
Definition on_erase (socket_id : SocketId) (data : Payload EraseData.t) (now : Z) : M unit :=
  observed (Code.on_erase socket_id data now).
Definition on_cursorMove (socket_id : SocketId) (data : Payload CursorData.t) : M unit :=
  observed (Code.on_cursorMove socket_id data).
Definition on_undo (socket_id : SocketId) : M unit := observed (Code.on_undo socket_id).
Definition on_redo (socket_id : SocketId) : M unit := observed (Code.on_redo socket_id).
Definition on_clearCanvas (socket_id : SocketId) : M unit :=
  observed (Code.on_clearCanvas socket_id).
Definition on_disconnect (socket_id : SocketId) : M unit :=
  observed (Code.on_disconnect socket_id).

(** ** The server behind its transport

    socket.io decides which handler runs when.  A [connection] event comes
    with a socket id no connected socket has; the other events come from a
    connected socket; after its [disconnect] a socket sends nothing more.
    The socket has joined before the [connection] callback runs and has
    left before its [disconnect] callback runs, which is what [io.emit]
    sees in those callbacks.

    socket.io never hands out an id twice.  [enabled] asks less, only that
    the id of a [connection] is not that of a socket connected now: what is
    proved of every run of this model holds of every run of the server, and
    a statement that some run exists says of its run that no id connects
    twice ([ids_never_reused]). *)

Inductive Event : Type :=
| EConnection (socket : SocketId)
| EDraw (socket : SocketId) (data : Payload DrawData.t) (now : Z)
| EErase (socket : SocketId) (data : Payload EraseData.t) (now : Z)
| ECursorMove (socket : SocketId) (data : Payload CursorData.t)
| EUndo (socket : SocketId)
| ERedo (socket : SocketId)
| EClearCanvas (socket : SocketId)
| EDisconnect (socket : SocketId).

Definition socket_of (e : Event) : SocketId :=
  match e with
  | EConnection s | EDraw s _ _ | EErase s _ _ | ECursorMove s _
  | EUndo s | ERedo s | EClearCanvas s | EDisconnect s => s
  end.

(** The handler socket.io calls for an event, with its journal. *)
Definition code_of (e : Event) : Journal unit :=
  match e with
  | EConnection s => Code.on_connection s
  | EDraw s data now => Code.on_draw s data now
  | EErase s data now => Code.on_erase s data now
  | ECursorMove s data => Code.on_cursorMove s data
  | EUndo s => Code.on_undo s
  | ERedo s => Code.on_redo s
  | EClearCanvas s => Code.on_clearCanvas s
  | EDisconnect s => Code.on_disconnect s
  end.

(** The handler socket.io calls for an event. *)
Definition handle (e : Event) : M unit :=
  match e with
  | EConnection s => on_connection s
  | EDraw s data now => on_draw s data now
  | EErase s data now => on_erase s data now
  | ECursorMove s data => on_cursorMove s data
  | EUndo s => on_undo s
  | ERedo s => on_redo s
  | EClearCanvas s => on_clearCanvas s
  | EDisconnect s => on_disconnect s
  end.

Record System : Type := mkSystem {
  connected : list SocketId;
  server : Server
}.

Definition boot : System := mkSystem [] initial.

Definition enabled (sys : System) (e : Event) : bool :=
  match e with
  | EConnection s => bool_decide (s ∉ connected sys)
  | _ => bool_decide (socket_of e ∈ connected sys)
  end.

(** The connected sockets while the handler of [e] runs, and after. *)
Definition connected_during (e : Event) (conn : list SocketId) : list SocketId :=
  match e with
  | EConnection s => conn ++ [s]
  | EDisconnect s => filter (λ c, c ≠ s) conn
  | _ => conn
  end.

(** One event: [None] when the transport cannot deliver [e] in this state
    or when the handler throws (nothing catches it: the process ends). *)
Definition step (sys : System) (e : Event) : option (System * list Packet) :=
  if enabled sys e then
    match handle e (server sys) with
    | Returns _ s' out => Some (mkSystem (connected_during e (connected sys)) s', out)
    | Throws _ => None
    end
  else None.

(** A sequence of events, with all the packets emitted on the way. *)
Fixpoint run (sys : System) (es : list Event) : option (System * list Packet) :=
  match es with
  | [] => Some (sys, [])
  | e :: es' =>
      match step sys e with
      | Some (sys1, out1) =>
          match run sys1 es' with
          | Some (sys2, out2) => Some (sys2, out1 ++ out2)
          | None => None
          end
      | None => None
      end
  end.

Inductive reachable : System → Prop :=
| reachable_boot : reachable boot
| reachable_step sys e sys' out :
    reachable sys → step sys e = Some (sys', out) → reachable sys'.

(** The ids of the [connection] events of a sequence, in order. *)
Definition joined (es : list Event) : list SocketId :=
  omap (λ e, match e with EConnection s => Some s | _ => None end) es.

(** No id connects twice. *)
Definition ids_never_reused (es : list Event) : Prop := NoDup (joined es).

(** ** The session as the specification words it

    Sections 3 and 4 of the specification, on the events themselves: the
    registry gives a joiner the palette color at its size modulo the
    palette's length and forgets a leaver; a draw appends a command with
    the sender's current color, an erase appends a command; an undo removes
    the requester's most recent entry, if any; a clear empties the log;
    nothing else touches the log. *)

(** Drop the first entry of [l] that satisfies [p]. *)
Fixpoint remove_first {A : Type} (p : A → bool) (l : list A) : list A :=
  match l with
  | [] => []
  | x :: l' => if p x then l' else x :: remove_first p l'
  end.

Definition remove_most_recent_of (userId : SocketId) (log : list Command) : list Command :=
  reverse (remove_first (λ c, bool_decide (Cmd.userId c = userId)) (reverse log)).

Module Spec.

Record Session : Type := mk {
  roster : list (SocketId * jsval);   (* who is in, with their color, in join order *)
  log : list Command
}.

Definition start : Session := mk [] [].

Definition color_of (id : SocketId) (roster : list (SocketId * jsval)) : option jsval :=
  snd <$> head (filter (λ member, member.1 = id) roster).

Definition handled (st : Session) (e : Event) : Session :=
  match e with
  | EConnection id =>
      mk (roster st ++ [(id, array_get colors (length (roster st) mod length colors))]) (log st)
  | EDisconnect id =>
      mk (filter (λ member, member.1 ≠ id) (roster st)) (log st)
  | EDraw id (Fields d) now =>
      match color_of id (roster st) with
      | Some color =>
          mk (roster st)
             (log st ++ [CDraw (DrawCommand.mk id color (DrawData.x1 d) (DrawData.y1 d)
                                  (DrawData.x2 d) (DrawData.y2 d) (DrawData.strokeWidth d) now)])
      | None => st
      end
  | EErase id (Fields d) now =>
      mk (roster st)
         (log st ++ [CErase (EraseCommand.mk id (EraseData.x d) (EraseData.y d)
                               (EraseData.radius d) now)])
  | EUndo id => mk (roster st) (remove_most_recent_of id (log st))
  | EClearCanvas _ => mk (roster st) []
  | _ => st
  end.

(** The log after a sequence of events from start-up. *)
Definition log_after (es : list Event) : list Command := log (foldl handled start es).

End Spec.

(** ** Vocabulary of the statements and proofs *)

(** Unfolds the monad so that a handler applied to a state computes. *)
Ltac run_handler :=
  unfold on_connection, on_draw, on_erase, on_cursorMove, on_undo, on_redo,
    on_clearCanvas, on_disconnect, generateColor, broadcastUserList,
    findLastUserAction, observed;
  unfold Code.on_connection, Code.on_draw, Code.on_erase, Code.on_cursorMove,
    Code.on_undo, Code.on_redo, Code.on_clearCanvas, Code.on_disconnect,
    Code.generateColor, Code.broadcastUserList, Code.findLastUserAction;
  unfold mbind, Journal_bind, mret, Journal_ret, prop, throw, get_users, put_users,
    get_history, put_history, emit;
  simpl.

(** The record [on_connection] stores for a socket, given the registry it
    finds. *)
Definition new_user (socket_id : SocketId) (us : JsMap User.t) : User.t :=
  User.mk socket_id
    (array_get colors (jsmap_size us mod length colors))
    ("User" +:+ pretty (jsmap_size us + 1))
    (JNumber 0) (JNumber 0).

(** The array [broadcastUserList] sends for a registry. *)
Definition user_list (us : JsMap User.t) : list UserInfo.t :=
  user_info <$> jsmap_values us.

(** The two assignments [user.cursorX = data.x; user.cursorY = data.y]. *)
Definition move_cursor (data : CursorData.t) (u : User.t) : User.t :=
  User.set_cursorY (CursorData.y data) (User.set_cursorX (CursorData.x data) u).

(** [i] is the position of the most recent entry of [userId] in
    [history]: the entry there is theirs and no later one is. *)
Definition last_action_of (userId : SocketId) (history : list Command) (i : nat) : Prop :=
  (∃ c, history !! i = Some c ∧ Cmd.userId c = userId)
  ∧ ∀ j c', i < j → history !! j = Some c' → Cmd.userId c' ≠ userId.

(** No entry of [history] belongs to [userId]. *)
Definition no_action_of (userId : SocketId) (history : list Command) : Prop :=
  ∀ c, c ∈ history → Cmd.userId c ≠ userId.

(** The runs of the handlers, case by case, each under the condition in
    which it is taken ([handle_cases] shows that [handle] is one of them). *)
Inductive handles (s : Server) : Event → Outcome unit → Prop :=
| handles_connection id :
    handles s (EConnection id)
      (Returns tt
         (mkServer (jsmap_set id (new_user id (users s)) (users s)) (drawingHistory s))
         [ (ToSocket id, loadDrawingHistory (drawingHistory s));
           (ToAll, userListUpdate
                     (user_list (jsmap_set id (new_user id (users s)) (users s)))) ])
| handles_draw id data now user :
    jsmap_get id (users s) = Some user →
    handles s (EDraw id (Fields data) now)
      (Returns tt
         (mkServer (users s)
            (drawingHistory s ++
               [CDraw (DrawCommand.mk id (User.color user)
                         (DrawData.x1 data) (DrawData.y1 data) (DrawData.x2 data)
                         (DrawData.y2 data) (DrawData.strokeWidth data) now)]))
         [ (ToOthers id,
            draw (DrawCommand.mk id (User.color user)
                    (DrawData.x1 data) (DrawData.y1 data) (DrawData.x2 data)
                    (DrawData.y2 data) (DrawData.strokeWidth data) now)) ])
| handles_draw_unregistered id payload now :
    jsmap_get id (users s) = None →
    handles s (EDraw id payload now) (Throws (TypeError "users.get(socket.id) is undefined"))
| handles_draw_nullish id now user :
    jsmap_get id (users s) = Some user →
    handles s (EDraw id Nullish now) (Throws (TypeError "data is undefined or null"))
| handles_erase id data now :
    handles s (EErase id (Fields data) now)
      (Returns tt
         (mkServer (users s)
            (drawingHistory s ++
               [CErase (EraseCommand.mk id (EraseData.x data) (EraseData.y data)
                          (EraseData.radius data) now)]))
         [ (ToOthers id,
            erase (EraseCommand.mk id (EraseData.x data) (EraseData.y data)
                     (EraseData.radius data) now)) ])
| handles_erase_nullish id now :
    handles s (EErase id Nullish now) (Throws (TypeError "data is undefined or null"))
| handles_cursorMove id data user :
    jsmap_get id (users s) = Some user →
    handles s (ECursorMove id (Fields data))
      (Returns tt
         (mkServer (jsmap_update (move_cursor data) id (users s)) (drawingHistory s))
         [ (ToOthers id,
            cursorUpdate (CursorUpdate.mk id (User.username user)
                            (CursorData.x data) (CursorData.y data) (User.color user))) ])
| handles_cursorMove_unregistered id payload :
    jsmap_has id (users s) = false →
    handles s (ECursorMove id payload) (Returns tt s [])
| handles_cursorMove_nullish id user :
    jsmap_get id (users s) = Some user →
    handles s (ECursorMove id Nullish) (Throws (TypeError "data is undefined or null"))
| handles_undo id i :
    last_action_of id (drawingHistory s) i →
    handles s (EUndo id)
      (Returns tt (mkServer (users s) (delete i (drawingHistory s)))
         [ (ToAll, undoAction id (delete i (drawingHistory s))) ])
| handles_undo_nothing id :
    no_action_of id (drawingHistory s) →
    handles s (EUndo id) (Returns tt s [])
| handles_redo id :
    handles s (ERedo id) (Returns tt s [])
| handles_clearCanvas id :
    handles s (EClearCanvas id) (Returns tt (mkServer (users s) []) [ (ToAll, canvasCleared) ])
| handles_disconnect id :
    handles s (EDisconnect id)
      (Returns tt (mkServer (jsmap_delete id (users s)) (drawingHistory s))
         [ (ToAll, cursorRemoved id);
           (ToAll, userListUpdate (user_list (jsmap_delete id (users s)))) ]).

(** The registry a handler leaves behind. *)
Definition registry_after (e : Event) (us : JsMap User.t) : JsMap User.t :=
  match e with
  | EConnection s => jsmap_set s (new_user s us) us
  | EDisconnect s => jsmap_delete s us
  | ECursorMove s (Fields data) =>
      if jsmap_has s us then jsmap_update (move_cursor data) s us else us
  | _ => us
  end.

(** Events whose handler never assigns to [drawingHistory] nor calls a
    mutating method on it. *)
Definition leaves_history (e : Event) : bool :=
  match e with
  | EConnection _ | ECursorMove _ _ | ERedo _ | EDisconnect _ => true
  | EDraw _ _ _ | EErase _ _ _ | EUndo _ | EClearCanvas _ => false
  end.

(** Events that draw on or wipe the canvas, and [redo]. *)
Definition leaves_registry (e : Event) : bool :=
  match e with
  | EDraw _ _ _ | EErase _ _ _ | EUndo _ | EClearCanvas _ | ERedo _ => true
  | EConnection _ | ECursorMove _ _ | EDisconnect _ => false
  end.

(** The two events that call [users.set] or [users.delete]. *)
Definition is_join_or_leave (e : Event) : bool :=
  match e with
  | EConnection _ | EDisconnect _ => true
  | _ => false
  end.

(** The registry is a [Map] (no key twice) and each record carries the key
    it is stored under. *)
Definition registry_wf (us : JsMap User.t) : Prop :=
  jsmap_wf us ∧ Forall (λ kv, User.id kv.2 = kv.1) us.

(** Sample inputs for the worked instances below. *)
Definition stroke : DrawData.t :=
  DrawData.mk (JNumber 10) (JNumber 20) (JNumber 30) (JNumber 40) (JNumber 2).
Definition rub : EraseData.t :=
  EraseData.mk (JNumber 15) (JNumber 25) (JNumber 8).
Definition pointer : CursorData.t :=
  CursorData.mk (JNumber 5) (JNumber 7).

(** A and B join, each draws a segment. *)
Definition two_strokes : list Event :=
  [ EConnection "A"; EConnection "B";
    EDraw "A" (Fields stroke) 100; EDraw "B" (Fields stroke) 101 ].

(** The state they leave. *)
Definition after_two_strokes : System :=
  mkSystem ["A"; "B"]
    (mkServer
       [ ("A", User.mk "A" (JString "#FF6B6B") "User1" (JNumber 0) (JNumber 0));
         ("B", User.mk "B" (JString "#4ECDC4") "User2" (JNumber 0) (JNumber 0)) ]
       [ CDraw (DrawCommand.mk "A" (JString "#FF6B6B")
                  (JNumber 10) (JNumber 20) (JNumber 30) (JNumber 40) (JNumber 2) 100);
         CDraw (DrawCommand.mk "B" (JString "#4ECDC4")
                  (JNumber 10) (JNumber 20) (JNumber 30) (JNumber 40) (JNumber 2) 101) ]).

(** A joins, B joins, A leaves, C joins. *)
Definition churn : list Event :=
  [ EConnection "A"; EConnection "B"; EDisconnect "A"; EConnection "C" ].

(** A value that is one of the palette's strings. *)
Definition palette_color (v : jsval) : Prop := ∃ c, c ∈ colors ∧ v = JString c.

(** The values [Date.now()] returned, in order, over a sequence of events:
    only the draw and erase handlers read the clock. *)
Definition clock (es : list Event) : list Z :=
  omap (λ e, match e with
             | EDraw _ _ now | EErase _ _ now => Some now
             | _ => None
             end) es.

(** The entries of a history that belong to [userId], and the others. *)
Definition entries_of (userId : SocketId) (history : list Command) : list Command :=
  filter (λ c, Cmd.userId c = userId) history.
Definition entries_of_others (userId : SocketId) (history : list Command) : list Command :=
  filter (λ c, Cmd.userId c ≠ userId) history.

(** Whom a handler may address while it handles [e]: everyone, everyone
    but the socket of [e], or that socket alone with the history it asked
    for by connecting. *)
Definition addressed_for (e : Event) (p : Packet) : Prop :=
  match p.1 with
  | ToAll => True
  | ToOthers t => t = socket_of e
  | ToSocket t => t = socket_of e ∧ ∃ history, e = EConnection t ∧ p.2 = loadDrawingHistory history
  end.

(** A registry record as [on_connection] makes them: a palette color and
    a username "User" followed by a positive number in decimal. *)
Definition well_formed_user (u : User.t) : Prop :=
  palette_color (User.color u)
  ∧ ∃ n, 1 ≤ n ∧ User.username u = "User" +:+ pretty n.

(** A history entry whose color, when it has one, is a palette color. *)
Definition well_colored (c : Command) : Prop :=
  match c with
  | CDraw d => palette_color (DrawCommand.userColor d)
  | CErase _ => True
  end.

(** The packet with which a command was announced when it was appended. *)
Definition packet_of (c : Command) : Packet :=
  match c with
  | CDraw d => (ToOthers (DrawCommand.userId d), draw d)
  | CErase d => (ToOthers (EraseCommand.userId d), erase d)
  end.

(** The event comes with a payload whose fields can be read, or needs
    none. *)
Definition carries_payload (e : Event) : bool :=
  match e with
  | EDraw _ Nullish _ | EErase _ Nullish _ | ECursorMove _ Nullish => false
  | _ => true
  end.

(** The specification's roster for a registry: who is in, with their
    color, in the registry's order. *)
Definition roster_of (us : JsMap User.t) : list (SocketId * jsval) :=
  (λ kv, (kv.1, User.color kv.2)) <$> us.

(** The specification's session and the server's state agree. *)
Definition matches (st : Spec.Session) (s : Server) : Prop :=
  Spec.roster st = roster_of (users s) ∧ Spec.log st = drawingHistory s.

(** * Properties *)

(** ** The registry as a [Map] *)

Section JsMapFacts.
Context {V : Type}.
Implicit Types (m : JsMap V) (k : string) (v : V).

Lemma jsmap_get_None m k : jsmap_get k m = None ↔ k ∉ jsmap_keys m.
Proof.
  unfold jsmap_keys. induction m as [|[k' v'] m IH]; csimpl.
  - split; [intros _; apply not_elem_of_nil | done].
  - rewrite not_elem_of_cons. case_bool_decide; subst.
    + split; [done | intros [? _]; done].
    + rewrite IH. split; [intros ?; split; [congruence | done] | intros [_ ?]; done].
Qed.

Lemma jsmap_has_true m k : jsmap_has k m = true ↔ k ∈ jsmap_keys m.
Proof.
  unfold jsmap_has. destruct (jsmap_get k m) eqn:E.
  - split; [intros _ | done].
    destruct (decide (k ∈ jsmap_keys m)) as [|Hn]; [done|].
    apply jsmap_get_None in Hn. congruence.
  - apply jsmap_get_None in E. split; [done | intros ?; contradiction].
Qed.

Lemma jsmap_has_false m k : jsmap_has k m = false ↔ k ∉ jsmap_keys m.
Proof.
  rewrite <- jsmap_has_true. destruct (jsmap_has k m); split; congruence.
Qed.

Lemma jsmap_set_fresh m k v : jsmap_get k m = None → jsmap_set k v m = m ++ [(k, v)].
Proof.
  induction m as [|[k' v'] m IH]; csimpl; [done|].
  case_bool_decide; [done|]. intros E. by rewrite IH.
Qed.

Lemma jsmap_get_set_eq m k v : jsmap_get k (jsmap_set k v m) = Some v.
Proof.
  induction m as [|[k' v'] m IH]; csimpl.
  - by rewrite bool_decide_eq_true_2.
  - case_bool_decide; csimpl.
    + by rewrite bool_decide_eq_true_2.
    + by rewrite bool_decide_eq_false_2.
Qed.

Lemma jsmap_get_set_ne m k k' v : k ≠ k' → jsmap_get k' (jsmap_set k v m) = jsmap_get k' m.
Proof.
  intros Hne. induction m as [|[k0 v0] m IH]; csimpl.
  - by rewrite bool_decide_eq_false_2.
  - case_bool_decide; csimpl; subst.
    + by rewrite !bool_decide_eq_false_2.
    + by rewrite IH.
Qed.

Lemma jsmap_keys_set m k v :
  jsmap_keys (jsmap_set k v m) = if jsmap_has k m then jsmap_keys m else jsmap_keys m ++ [k].
Proof.
  unfold jsmap_has, jsmap_keys. induction m as [|[k0 v0] m IH]; csimpl; [done|].
  case_bool_decide; csimpl; subst; [done|].
  rewrite IH. by destruct (jsmap_get k m).
Qed.

Lemma jsmap_size_set_fresh m k v :
  jsmap_has k m = false → jsmap_size (jsmap_set k v m) = S (jsmap_size m).
Proof.
  unfold jsmap_has, jsmap_size. destruct (jsmap_get k m) eqn:E; [done|]. intros _.
  rewrite jsmap_set_fresh by done. rewrite length_app. csimpl. lia.
Qed.

Lemma jsmap_keys_delete m k :
  jsmap_keys (jsmap_delete k m) = filter (λ c, c ≠ k) (jsmap_keys m).
Proof.
  unfold jsmap_keys. induction m as [|[k0 v0] m IH]; csimpl; [done|].
  case_bool_decide; subst.
  - rewrite filter_cons_False by (intros ?; done). done.
  - rewrite filter_cons_True by done. csimpl. by rewrite IH.
Qed.

Lemma jsmap_has_delete m k : jsmap_has k (jsmap_delete k m) = false.
Proof.
  apply jsmap_has_false. rewrite jsmap_keys_delete, list_elem_of_filter.
  intros [? _]. done.
Qed.

Lemma jsmap_get_delete_ne m k k' : k ≠ k' → jsmap_get k' (jsmap_delete k m) = jsmap_get k' m.
Proof.
  intros Hne. induction m as [|[k0 v0] m IH]; csimpl; [done|].
  case_bool_decide; csimpl; subst.
  - by rewrite bool_decide_eq_false_2.
  - by rewrite IH.
Qed.

Lemma jsmap_delete_absent m k : jsmap_has k m = false → jsmap_delete k m = m.
Proof.
  unfold jsmap_has. induction m as [|[k0 v0] m IH]; csimpl; [done|].
  case_bool_decide; [done|]. intros E. by rewrite IH.
Qed.

Lemma jsmap_size_delete m k :
  jsmap_wf m → jsmap_has k m = true → jsmap_size m = S (jsmap_size (jsmap_delete k m)).
Proof.
  unfold jsmap_wf, jsmap_size, jsmap_keys.
  induction m as [|[k0 v0] m IH]; csimpl; [done|].
  intros Hnd Hhas. apply NoDup_cons in Hnd as [Hk0 Hnd].
  unfold jsmap_has in *. csimpl in Hhas. case_bool_decide; subst.
  - rewrite jsmap_delete_absent; [done|]. by apply jsmap_has_false.
  - csimpl. rewrite <- IH; done.
Qed.

Lemma jsmap_wf_set m k v : jsmap_wf m → jsmap_wf (jsmap_set k v m).
Proof.
  unfold jsmap_wf. rewrite jsmap_keys_set. destruct (jsmap_has k m) eqn:E; [done|].
  intros Hnd. apply NoDup_app. split_and!; [done | | apply NoDup_singleton].
  intros x Hx Hx'. apply list_elem_of_singleton in Hx'. subst.
  by apply jsmap_has_false in E.
Qed.

Lemma jsmap_wf_delete m k : jsmap_wf m → jsmap_wf (jsmap_delete k m).
Proof.
  unfold jsmap_wf. rewrite jsmap_keys_delete. apply NoDup_filter.
Qed.

Lemma jsmap_keys_update (f : V → V) m k : jsmap_keys (jsmap_update f k m) = jsmap_keys m.
Proof.
  unfold jsmap_keys. induction m as [|[k0 v0] m IH]; csimpl; [done|].
  case_bool_decide; csimpl; [done|]. by rewrite IH.
Qed.

Lemma jsmap_get_update_eq (f : V → V) m k :
  jsmap_get k (jsmap_update f k m) = f <$> jsmap_get k m.
Proof.
  induction m as [|[k0 v0] m IH]; csimpl; [done|].
  case_bool_decide; csimpl; subst.
  - by rewrite bool_decide_eq_true_2.
  - by rewrite bool_decide_eq_false_2.
Qed.

Lemma jsmap_get_update_ne (f : V → V) m k k' :
  k ≠ k' → jsmap_get k' (jsmap_update f k m) = jsmap_get k' m.
Proof.
  intros Hne. induction m as [|[k0 v0] m IH]; csimpl; [done|].
  case_bool_decide; csimpl; subst.
  - by rewrite !bool_decide_eq_false_2.
  - by rewrite IH.
Qed.

Lemma jsmap_update_update (f g : V → V) m k :
  jsmap_update g k (jsmap_update f k m) = jsmap_update (g ∘ f) k m.
Proof.
  induction m as [|[k0 v0] m IH]; csimpl; [done|].
  case_bool_decide; csimpl; subst.
  - by rewrite bool_decide_eq_true_2.
  - rewrite bool_decide_eq_false_2 by done. by rewrite IH.
Qed.

Lemma jsmap_values_update {W : Type} (p : V → W) (f : V → V) m k :
  (∀ v, p (f v) = p v) → p <$> jsmap_values (jsmap_update f k m) = p <$> jsmap_values m.
Proof.
  intros Hp. unfold jsmap_values. induction m as [|[k0 v0] m IH]; csimpl; [done|].
  case_bool_decide; csimpl; [by rewrite Hp|]. f_equal. apply IH.
Qed.

End JsMapFacts.

(** ** The history array *)

Lemma splice_one {A : Type} (arr : list A) (i : nat) :
  i < length arr → splice arr (Z.of_nat i) 1 = delete i arr.
Proof.
  intros Hi. unfold splice.
  destruct (Z.ltb_spec (Z.of_nat i) 0) as [Hneg|_]; [lia|].
  rewrite Z.min_l by lia. rewrite Nat2Z.id.
  rewrite delete_take_drop. by replace (i + 1) with (S i) by lia.
Qed.

(** The loop looks at in-range indices only, so it never reads a missing
    entry, and it stops at the highest index below [n] that belongs to
    [userId]. *)
Lemma findLast_loop_spec (history : list Command) (userId : SocketId) (n : nat) :
  n ≤ length history →
  (findLast_loop history userId n = Some (-1)%Z
   ∧ ∀ i c, i < n → history !! i = Some c → Cmd.userId c ≠ userId)
  ∨ (∃ i c, findLast_loop history userId n = Some (Z.of_nat i)
       ∧ i < n ∧ history !! i = Some c ∧ Cmd.userId c = userId
       ∧ ∀ j c', i < j < n → history !! j = Some c' → Cmd.userId c' ≠ userId).
Proof.
  induction n as [|n IH]; intros Hn.
  - left. split; [done | intros; lia].
  - destruct (lookup_lt_is_Some_2 history n) as [c Hc]; [lia|].
    simpl. rewrite Hc. case_bool_decide as Hu.
    + right. exists n, c. split_and!; [done | lia | done | done | intros; lia].
    + destruct IH as [[Hloop Hnone] | (i & c0 & Hloop & Hi & Hc0 & Hu0 & Hlater)]; [lia | |].
      * left. split; [done|]. intros i c1 Hi Hc1.
        destruct (decide (i = n)) as [->|]; [congruence|]. apply (Hnone i); [lia | done].
      * right. exists i, c0. split_and!; [done | lia | done | done |].
        intros j c1 Hj Hc1.
        destruct (decide (j = n)) as [->|]; [congruence|]. apply (Hlater j); [lia | done].
Qed.

Lemma remove_first_none {A : Type} (p : A → bool) (l : list A) :
  Forall (λ x, p x = false) l → remove_first p l = l.
Proof.
  induction 1 as [|x l Hx _ IH]; simpl; [done|]. by rewrite Hx, IH.
Qed.

Lemma remove_first_skip {A : Type} (p : A → bool) (l1 l2 : list A) (x : A) :
  Forall (λ y, p y = false) l1 → p x = true →
  remove_first p (l1 ++ x :: l2) = l1 ++ l2.
Proof.
  intros Hl1 Hx. induction Hl1 as [|y l1 Hy _ IH]; simpl.
  - by rewrite Hx.
  - by rewrite Hy, IH.
Qed.

Lemma remove_most_recent_of_absent (userId : SocketId) (log : list Command) :
  (∀ c, c ∈ log → Cmd.userId c ≠ userId) → remove_most_recent_of userId log = log.
Proof.
  intros Hnone. unfold remove_most_recent_of.
  rewrite remove_first_none; [apply reverse_involutive|].
  apply Forall_forall. intros c Hc. apply bool_decide_eq_false_2.
  apply Hnone. by apply elem_of_reverse.
Qed.

Lemma remove_most_recent_of_last (userId : SocketId) (log : list Command) (i : nat) (c : Command) :
  log !! i = Some c → Cmd.userId c = userId →
  (∀ j c', i < j → log !! j = Some c' → Cmd.userId c' ≠ userId) →
  remove_most_recent_of userId log = delete i log.
Proof.
  intros Hc Hu Hlater. unfold remove_most_recent_of.
  rewrite <- (take_drop_middle log i c Hc) at 1.
  rewrite reverse_app, reverse_cons, <- app_assoc. simpl.
  rewrite remove_first_skip.
  - rewrite reverse_app, !reverse_involutive. symmetry. apply delete_take_drop.
  - apply Forall_forall. intros c' Hc'. apply bool_decide_eq_false_2.
    rewrite elem_of_reverse in Hc'. apply list_elem_of_lookup in Hc' as [j Hj].
    rewrite lookup_drop in Hj. apply (Hlater (S i + j)); [lia | done].
  - by apply bool_decide_eq_true_2.
Qed.

(** ** What each handler does, in closed form *)

Lemma on_connection_eq (socket_id : SocketId) (s : Server) :
  on_connection socket_id s =
  let us' := jsmap_set socket_id (new_user socket_id (users s)) (users s) in
  Returns tt (mkServer us' (drawingHistory s))
    [ (ToSocket socket_id, loadDrawingHistory (drawingHistory s));
      (ToAll, userListUpdate (user_list us')) ].
Proof. reflexivity. Qed.

Lemma on_draw_registered (socket_id : SocketId) (data : DrawData.t) (now : Z)
    (s : Server) (user : User.t) :
  jsmap_get socket_id (users s) = Some user →
  on_draw socket_id (Fields data) now s =
  let command :=
    DrawCommand.mk socket_id (User.color user)
      (DrawData.x1 data) (DrawData.y1 data) (DrawData.x2 data) (DrawData.y2 data)
      (DrawData.strokeWidth data) now in
  Returns tt (mkServer (users s) (drawingHistory s ++ [CDraw command]))
    [ (ToOthers socket_id, draw command) ].
Proof. intros Hu. run_handler. by rewrite Hu. Qed.

Lemma on_draw_unregistered (socket_id : SocketId) (data : Payload DrawData.t) (now : Z)
    (s : Server) :
  jsmap_get socket_id (users s) = None →
  on_draw socket_id data now s = Throws (TypeError "users.get(socket.id) is undefined").
Proof. intros Hu. run_handler. by rewrite Hu. Qed.

Lemma on_draw_nullish (socket_id : SocketId) (now : Z) (s : Server) (user : User.t) :
  jsmap_get socket_id (users s) = Some user →
  on_draw socket_id Nullish now s = Throws (TypeError "data is undefined or null").
Proof. intros Hu. run_handler. by rewrite Hu. Qed.

Lemma on_erase_nullish (socket_id : SocketId) (now : Z) (s : Server) :
  on_erase socket_id Nullish now s = Throws (TypeError "data is undefined or null").
Proof. reflexivity. Qed.

Lemma on_erase_eq (socket_id : SocketId) (data : EraseData.t) (now : Z) (s : Server) :
  on_erase socket_id (Fields data) now s =
  let command :=
    EraseCommand.mk socket_id (EraseData.x data) (EraseData.y data) (EraseData.radius data) now in
  Returns tt (mkServer (users s) (drawingHistory s ++ [CErase command]))
    [ (ToOthers socket_id, erase command) ].
Proof. reflexivity. Qed.

Lemma on_cursorMove_registered (socket_id : SocketId) (data : CursorData.t)
    (s : Server) (user : User.t) :
  jsmap_get socket_id (users s) = Some user →
  on_cursorMove socket_id (Fields data) s =
  Returns tt (mkServer (jsmap_update (move_cursor data) socket_id (users s)) (drawingHistory s))
    [ (ToOthers socket_id,
       cursorUpdate (CursorUpdate.mk socket_id (User.username user)
                       (CursorData.x data) (CursorData.y data) (User.color user))) ].
Proof.
  intros Hu. run_handler. unfold jsmap_has. rewrite Hu.
  by rewrite jsmap_update_update.
Qed.

Lemma on_cursorMove_unregistered (socket_id : SocketId) (data : Payload CursorData.t)
    (s : Server) :
  jsmap_has socket_id (users s) = false →
  on_cursorMove socket_id data s = Returns tt s [].
Proof. intros Hu. run_handler. by rewrite Hu. Qed.

Lemma on_cursorMove_nullish (socket_id : SocketId) (s : Server) (user : User.t) :
  jsmap_get socket_id (users s) = Some user →
  on_cursorMove socket_id Nullish s = Throws (TypeError "data is undefined or null").
Proof. intros Hu. run_handler. unfold jsmap_has. by rewrite Hu. Qed.

Lemma last_action_cases (userId : SocketId) (history : list Command) :
  (∃ i, last_action_of userId history i
        ∧ findLast_loop history userId (length history) = Some (Z.of_nat i))
  ∨ (no_action_of userId history
     ∧ findLast_loop history userId (length history) = Some (-1)%Z).
Proof.
  destruct (findLast_loop_spec history userId (length history))
    as [[Hloop Hnone] | (i & c & Hloop & Hi & Hc & Hu & Hlater)]; [lia | |].
  - right. split; [|done]. intros c Hc.
    apply list_elem_of_lookup in Hc as [i Hi].
    apply (Hnone i); [by eapply lookup_lt_Some | done].
  - left. exists i. split; [|done]. split; [by exists c|].
    intros j c' Hj Hc'. apply (Hlater j); [|done].
    split; [done | by eapply lookup_lt_Some].
Qed.

Lemma last_action_of_unique (userId : SocketId) (history : list Command) (i j : nat) :
  last_action_of userId history i → last_action_of userId history j → i = j.
Proof.
  intros [(ci & Hci & Hui) Hi] [(cj & Hcj & Huj) Hj].
  destruct (Nat.lt_trichotomy i j) as [Hlt | [-> | Hlt]]; [|done|].
  - by destruct (Hi j cj).
  - by destruct (Hj i ci).
Qed.

Lemma last_action_of_not_absent (userId : SocketId) (history : list Command) (i : nat) :
  last_action_of userId history i → ¬ no_action_of userId history.
Proof.
  intros [(c & Hc & Hu) _] Hnone. apply (Hnone c); [|done].
  by eapply list_elem_of_lookup_2.
Qed.

Lemma on_undo_found (socket_id : SocketId) (s : Server) (i : nat) :
  last_action_of socket_id (drawingHistory s) i →
  on_undo socket_id s =
  Returns tt (mkServer (users s) (delete i (drawingHistory s)))
    [ (ToAll, undoAction socket_id (delete i (drawingHistory s))) ].
Proof.
  intros Hi.
  destruct (last_action_cases socket_id (drawingHistory s)) as [(j & Hj & Hloop) | [Hnone _]].
  - rewrite (last_action_of_unique _ _ _ _ Hi Hj). run_handler. rewrite Hloop.
    rewrite bool_decide_eq_true_2 by lia.
    destruct Hj as [(c & Hc & _) _]. apply lookup_lt_Some in Hc.
    by rewrite splice_one.
  - by destruct (last_action_of_not_absent _ _ _ Hi).
Qed.

Lemma on_undo_absent (socket_id : SocketId) (s : Server) :
  no_action_of socket_id (drawingHistory s) →
  on_undo socket_id s = Returns tt s [].
Proof.
  intros Hnone.
  destruct (last_action_cases socket_id (drawingHistory s)) as [(j & Hj & _) | [_ Hloop]].
  - by destruct (last_action_of_not_absent _ _ _ Hj).
  - run_handler. rewrite Hloop. by destruct s.
Qed.

Lemma on_clearCanvas_eq (socket_id : SocketId) (s : Server) :
  on_clearCanvas socket_id s = Returns tt (mkServer (users s) []) [ (ToAll, canvasCleared) ].
Proof. reflexivity. Qed.

Lemma on_disconnect_eq (socket_id : SocketId) (s : Server) :
  on_disconnect socket_id s =
  let us' := jsmap_delete socket_id (users s) in
  Returns tt (mkServer us' (drawingHistory s))
    [ (ToAll, cursorRemoved socket_id); (ToAll, userListUpdate (user_list us')) ].
Proof. reflexivity. Qed.

Lemma handle_cases (e : Event) (s : Server) : handles s e (handle e s).
Proof.
  destruct e as [id | id [|data] now | id [|data] now | id [|data] | id | id | id | id];
    simpl handle.
  - rewrite on_connection_eq. constructor.
  - destruct (jsmap_get id (users s)) as [u|] eqn:Hu.
    + rewrite (on_draw_nullish _ _ _ _ Hu). by econstructor.
    + rewrite (on_draw_unregistered _ _ _ _ Hu). by constructor.
  - destruct (jsmap_get id (users s)) as [u|] eqn:Hu.
    + rewrite (on_draw_registered _ _ _ _ _ Hu). by constructor.
    + rewrite (on_draw_unregistered _ _ _ _ Hu). by constructor.
  - rewrite on_erase_nullish. constructor.
  - rewrite on_erase_eq. constructor.
  - destruct (jsmap_get id (users s)) as [u|] eqn:Hu.
    + rewrite (on_cursorMove_nullish _ _ _ Hu). by econstructor.
    + assert (jsmap_has id (users s) = false) as Hh by (unfold jsmap_has; by rewrite Hu).
      rewrite (on_cursorMove_unregistered _ _ _ Hh). by constructor.
  - destruct (jsmap_get id (users s)) as [u|] eqn:Hu.
    + rewrite (on_cursorMove_registered _ _ _ _ Hu). by constructor.
    + assert (jsmap_has id (users s) = false) as Hh by (unfold jsmap_has; by rewrite Hu).
      rewrite (on_cursorMove_unregistered _ _ _ Hh). by constructor.
  - destruct (last_action_cases id (drawingHistory s)) as [(i & Hi & _) | [Hnone _]].
    + rewrite (on_undo_found _ _ _ Hi). by constructor.
    + rewrite (on_undo_absent _ _ Hnone). by constructor.
  - constructor.
  - rewrite on_clearCanvas_eq. constructor.
  - rewrite on_disconnect_eq. constructor.
Qed.

(** Case analysis on a run that returned. *)
Ltac handler_cases Hh :=
  match type of Hh with
  | handle ?e ?s = _ =>
      let Hcase := fresh "Hcase" in
      pose proof (handle_cases e s) as Hcase; rewrite Hh in Hcase;
      inversion Hcase; subst; clear Hcase
  end.

(** ** Frame: which handler touches which global *)

Lemma handle_registry (e : Event) (s s' : Server) (out : list Packet) :
  handle e s = Returns tt s' out → users s' = registry_after e (users s).
Proof.
  intros Hh. handler_cases Hh; simpl; try done.
  - unfold jsmap_has.
    by match goal with H : jsmap_get _ _ = Some _ |- _ => rewrite H end.
  - match goal with H : jsmap_has _ _ = false |- _ => rewrite H end.
    by destruct payload.
Qed.

Lemma handle_history (e : Event) (s s' : Server) (out : list Packet) :
  leaves_history e = true → handle e s = Returns tt s' out →
  drawingHistory s' = drawingHistory s.
Proof. intros He Hh. by handler_cases Hh. Qed.

(** ** Invariants of the running server *)

Lemma Forall_jsmap_set {V : Type} (P : string * V → Prop) (m : JsMap V) (k : string) (v : V) :
  Forall P m → P (k, v) → Forall P (jsmap_set k v m).
Proof.
  intros Hm Hkv. induction Hm as [|[k0 v0] m H0 Hm IH]; simpl.
  - by constructor.
  - case_bool_decide; by constructor.
Qed.

Lemma Forall_jsmap_delete {V : Type} (P : string * V → Prop) (m : JsMap V) (k : string) :
  Forall P m → Forall P (jsmap_delete k m).
Proof.
  induction 1 as [|[k0 v0] m H0 _ IH]; simpl; [done|].
  case_bool_decide; [done | by constructor].
Qed.

Lemma Forall_jsmap_update {V : Type} (P : string * V → Prop) (f : V → V) (m : JsMap V) (k : string) :
  (∀ k' v, P (k', v) → P (k', f v)) → Forall P m → Forall P (jsmap_update f k m).
Proof.
  intros Hf. induction 1 as [|[k0 v0] m H0 Hm IH]; simpl; [done|].
  case_bool_decide; constructor; auto.
Qed.

Lemma registry_wf_after (e : Event) (us : JsMap User.t) :
  registry_wf us → registry_wf (registry_after e us).
Proof.
  intros [Hnd Hid].
  destruct e as [id | id data now | id data now | id [|data] | id | id | id | id];
    simpl; try done.
  - split; [by apply jsmap_wf_set | by apply Forall_jsmap_set].
  - destruct (jsmap_has id us); [|done]. split.
    + unfold jsmap_wf. by rewrite jsmap_keys_update.
    + apply Forall_jsmap_update; [|done]. by intros k' [].
  - split; [by apply jsmap_wf_delete | by apply Forall_jsmap_delete].
Qed.

Lemma registry_keys_after (e : Event) (us : JsMap User.t) :
  (∀ s, e = EConnection s → s ∉ jsmap_keys us) →
  jsmap_keys (registry_after e us) = connected_during e (jsmap_keys us).
Proof.
  intros Hfresh.
  destruct e as [id | id data now | id data now | id [|data] | id | id | id | id];
    simpl; try done.
  - rewrite jsmap_keys_set.
    by rewrite (proj2 (jsmap_has_false us id) (Hfresh id eq_refl)).
  - destruct (jsmap_has id us); [|done]. by rewrite jsmap_keys_update.
  - apply jsmap_keys_delete.
Qed.

Lemma step_inv (sys sys' : System) (e : Event) (out : list Packet) :
  step sys e = Some (sys', out) →
  enabled sys e = true
  ∧ handle e (server sys) = Returns tt (server sys') out
  ∧ connected sys' = connected_during e (connected sys).
Proof.
  unfold step. destruct (enabled sys e); [|done].
  destruct (handle e (server sys)) as [[] s1 out1|]; [|done].
  by intros [= <- <-].
Qed.

(** The registry holds exactly the connected sockets, in the order they
    connected. *)
Lemma reachable_registry (sys : System) :
  reachable sys →
  jsmap_keys (users (server sys)) = connected sys ∧ registry_wf (users (server sys)).
Proof.
  induction 1 as [|sys e sys' out _ [IHk IHwf] Hstep].
  - split; [done|]. split; [apply NoDup_nil_2 | constructor].
  - apply step_inv in Hstep as (Hen & Hh & Hconn).
    apply handle_registry in Hh. rewrite Hh, Hconn. split.
    + rewrite <- IHk. apply registry_keys_after. intros s ->.
      simpl in Hen. apply bool_decide_eq_true_1 in Hen. by rewrite IHk.
    + by apply registry_wf_after.
Qed.

Lemma reachable_registered (sys : System) (socket_id : SocketId) :
  reachable sys → socket_id ∈ connected sys →
  ∃ user, jsmap_get socket_id (users (server sys)) = Some user.
Proof.
  intros Hr Hc. apply reachable_registry in Hr as [Hk _].
  rewrite <- Hk in Hc. apply jsmap_has_true in Hc. unfold jsmap_has in Hc.
  destruct (jsmap_get socket_id (users (server sys))) as [u|]; [by exists u | done].
Qed.

Lemma run_reachable (es : list Event) (sys sys' : System) (sent : list Packet) :
  reachable sys → run sys es = Some (sys', sent) → reachable sys'.
Proof.
  revert sys sent. induction es as [|e es IH]; simpl; intros sys sent Hr.
  - by intros [= <- _].
  - destruct (step sys e) as [[sys1 out1]|] eqn:Hstep; [|done].
    destruct (run sys1 es) as [[sys2 out2]|] eqn:Hrun; [|done].
    intros [= <- _]. eapply IH; [|done]. by eapply reachable_step.
Qed.

(** ** The history is the specification's log *)

Lemma color_of_roster (us : JsMap User.t) (id : SocketId) :
  Spec.color_of id (roster_of us) = User.color <$> jsmap_get id us.
Proof.
  unfold Spec.color_of, roster_of. induction us as [|[k u] us IH]; csimpl; [done|].
  rewrite filter_cons. simpl. case_bool_decide as Hk.
  - by rewrite decide_True.
  - by rewrite decide_False.
Qed.

Lemma roster_of_delete (us : JsMap User.t) (id : SocketId) :
  roster_of (jsmap_delete id us) = filter (λ member, member.1 ≠ id) (roster_of us).
Proof.
  unfold roster_of. induction us as [|[k u] us IH]; csimpl; [done|].
  rewrite filter_cons. simpl. case_bool_decide as Hk.
  - by rewrite decide_False by (intros Hne; by apply Hne).
  - rewrite decide_True by done. csimpl. by rewrite IH.
Qed.

Lemma roster_of_update (f : User.t → User.t) (us : JsMap User.t) (id : SocketId) :
  (∀ u, User.color (f u) = User.color u) →
  roster_of (jsmap_update f id us) = roster_of us.
Proof.
  intros Hf. unfold roster_of. induction us as [|[k u] us IH]; csimpl; [done|].
  case_bool_decide; csimpl; [by rewrite Hf | by rewrite IH].
Qed.

Lemma handle_matches (e : Event) (s s' : Server) (out : list Packet) (st : Spec.Session) :
  (∀ id, e = EConnection id → jsmap_get id (users s) = None) →
  matches st s → handle e s = Returns tt s' out →
  matches (Spec.handled st e) s'.
Proof.
  intros Hfresh [Hroster Hlog] Hh.
  destruct st as [roster log]. simpl in Hroster, Hlog. subst roster log.
  handler_cases Hh; unfold matches;
    cbn [Spec.handled Spec.roster Spec.log users drawingHistory].
  - (* connection *)
    split; [|done]. rewrite (jsmap_set_fresh _ _ _ (Hfresh id eq_refl)).
    unfold roster_of. rewrite fmap_app, length_fmap. reflexivity.
  - (* draw *)
    rewrite color_of_roster.
    by match goal with H : jsmap_get _ _ = Some _ |- _ => rewrite H end.
  - (* erase *) done.
  - (* cursorMove, registered *)
    split; [|done]. symmetry. apply roster_of_update. by intros [].
  - (* cursorMove, not registered *)
    by destruct payload.
  - (* undo *)
    split; [done|].
    match goal with H : last_action_of _ _ _ |- _ => destruct H as [(c & Hc & Hu) Hlater] end.
    by apply (remove_most_recent_of_last _ _ i c).
  - (* undo, nothing to take back *)
    split; [done|]. by apply remove_most_recent_of_absent.
  - (* redo *) done.
  - (* clearCanvas *) done.
  - (* disconnect *)
    split; [|done]. symmetry. apply roster_of_delete.
Qed.

Lemma step_matches (sys sys' : System) (e : Event) (out : list Packet) (st : Spec.Session) :
  reachable sys → matches st (server sys) → step sys e = Some (sys', out) →
  matches (Spec.handled st e) (server sys').
Proof.
  intros Hr Hm Hstep. apply step_inv in Hstep as (Hen & Hh & _).
  apply (handle_matches e (server sys) (server sys') out st); [|done|done].
  intros id ->. apply jsmap_get_None. rewrite (proj1 (reachable_registry sys Hr)).
  simpl in Hen. by apply bool_decide_eq_true_1 in Hen.
Qed.

Lemma run_matches (es : list Event) (sys sys' : System) (sent : list Packet)
    (st : Spec.Session) :
  reachable sys → matches st (server sys) → run sys es = Some (sys', sent) →
  matches (foldl Spec.handled st es) (server sys').
Proof.
  revert sys sent st. induction es as [|e es IH]; simpl; intros sys sent st Hr Hm.
  - by intros [= <- _].
  - destruct (step sys e) as [[sys1 out1]|] eqn:Hstep; [|done].
    destruct (run sys1 es) as [[sys2 out2]|] eqn:Hrun; [|done].
    intros [= <- _]. eapply IH; [| |exact Hrun].
    + by eapply reachable_step.
    + by eapply step_matches.
Qed.

Lemma run_log_after (es : list Event) (sys : System) (sent : list Packet) :
  run boot es = Some (sys, sent) → drawingHistory (server sys) = Spec.log_after es.
Proof.
  intros Hrun. symmetry.
  apply (run_matches es boot sys sent Spec.start reachable_boot); [by split | done].
Qed.

Lemma on_connection_journal (socket_id : SocketId) (s : Server) :
  Code.on_connection socket_id s =
  let us' := jsmap_set socket_id (new_user socket_id (users s)) (users s) in
  Finished tt (mkServer us' (drawingHistory s))
    [ WroteUsers us';
      Emitted (ToSocket socket_id, loadDrawingHistory (drawingHistory s));
      Emitted (ToAll, userListUpdate (user_list us')) ].
Proof. reflexivity. Qed.

(** ** Who a packet reaches *)

Lemma recipients_others (conn : list SocketId) (socket_id c : SocketId) :
  c ∈ recipients conn (ToOthers socket_id) ↔ c ∈ conn ∧ c ≠ socket_id.
Proof. simpl. rewrite list_elem_of_filter. tauto. Qed.

(** ** A worked run *)

Lemma run_two_strokes : ∃ sent, run boot two_strokes = Some (after_two_strokes, sent).
Proof. eexists. vm_compute. reflexivity. Qed.

Lemma reachable_after_two_strokes : reachable after_two_strokes.
Proof.
  destruct run_two_strokes as [sent Hrun].
  exact (run_reachable _ _ _ _ reachable_boot Hrun).
Qed.

(** * The claims *)

(** C1. Handling [undo] removes exactly one entry of the history, the one
    at the highest index whose [userId] is the requester's socket id,
    whatever its type, and sends [undoAction] with the remaining history to
    everyone; when the history holds no entry of the requester the state
    (history included) stays as it was and no packet is emitted.  One of
    the two cases always applies. *)
Theorem undo_removes_most_recent_own_entry (s : Server) (socket_id : SocketId) :
  (∃ i, last_action_of socket_id (drawingHistory s) i
     ∧ on_undo socket_id s =
         Returns tt (mkServer (users s) (delete i (drawingHistory s)))
           [ (ToAll, undoAction socket_id (delete i (drawingHistory s))) ]
     ∧ length (drawingHistory s) = S (length (delete i (drawingHistory s)))
     ∧ (∀ j, j < i → delete i (drawingHistory s) !! j = drawingHistory s !! j)
     ∧ (∀ j, i ≤ j → delete i (drawingHistory s) !! j = drawingHistory s !! S j))
  ∨ (no_action_of socket_id (drawingHistory s)
     ∧ on_undo socket_id s = Returns tt s []).
Proof.
  destruct (last_action_cases socket_id (drawingHistory s)) as [(i & Hi & _) | [Hnone _]].
  - left. exists i. split_and!.
    + done.
    + by apply on_undo_found.
    + destruct Hi as [(c & Hc & _) _]. apply lookup_lt_Some in Hc.
      rewrite length_delete by (by apply lookup_lt_is_Some_2). lia.
    + intros j Hj. by apply list_lookup_delete_lt.
    + intros j Hj. by apply list_lookup_delete_ge.
  - right. split; [done | by apply on_undo_absent].
Qed.

(** An undo by A when A's latest entry is an erase takes the erase, not
    the earlier draw, and leaves B's later stroke in place. *)
Example undo_takes_the_erase :
  ∃ sys sent,
    run boot [ EConnection "A"; EConnection "B";
               EDraw "A" (Fields stroke) 1; EDraw "B" (Fields stroke) 2;
               EErase "A" (Fields rub) 3; EDraw "B" (Fields stroke) 4;
               EUndo "A" ] = Some (sys, sent)
    ∧ Cmd.type <$> drawingHistory (server sys) = ["draw"; "draw"; "draw"]
    ∧ Cmd.userId <$> drawingHistory (server sys) = ["A"; "B"; "B"]
    ∧ Cmd.timestamp <$> drawingHistory (server sys) = [1; 2; 4]%Z.
Proof. eexists _, _. split; [vm_compute; reflexivity|]. by split_and!. Qed.

(** The scenario of the specification: with the log [S1; S2] of A and B,
    C joins and is sent both segments; A's undo leaves [S2] and tells all
    three; B's clear leaves the empty log. *)
Example scenario_join_undo_clear :
  ∃ sys sent sent',
    run boot two_strokes = Some (after_two_strokes, sent)
    ∧ run after_two_strokes [ EConnection "C"; EUndo "A"; EClearCanvas "B" ] = Some (sys, sent')
    ∧ connected sys = ["A"; "B"; "C"]
    ∧ drawingHistory (server sys) = []
    ∧ (λ p, recipients ["A"; "B"; "C"] p.1) <$> sent' =
        [ ["C"]; ["A"; "B"; "C"]; ["A"; "B"; "C"]; ["A"; "B"; "C"] ]
    ∧ sent'.*2 !! 0 = Some (loadDrawingHistory (drawingHistory (server after_two_strokes)))
    ∧ sent'.*2 !! 2 = Some (undoAction "A" (drop 1 (drawingHistory (server after_two_strokes))))
    ∧ sent'.*2 !! 3 = Some canvasCleared.
Proof.
  eexists _, _, _. split; [vm_compute; reflexivity|]. split; [vm_compute; reflexivity|].
  by split_and!.
Qed.

(** C2. A [connection] event (its socket id is new to the server) stores
    under that id a record whose color is
    [colors[size % colors.length]] (an entry of the palette), whose
    username is "User" followed by [size + 1] in decimal and whose cursor
    is (0, 0), [size] being the registry's size before the event; the
    registry is one larger afterwards. *)
Theorem connection_registers_user (sys : System) (socket_id : SocketId) :
  reachable sys → socket_id ∉ connected sys →
  let n := jsmap_size (users (server sys)) in
  ∃ sys' out palette_color,
    step sys (EConnection socket_id) = Some (sys', out)
    ∧ colors !! (n mod length colors) = Some palette_color
    ∧ jsmap_get socket_id (users (server sys')) =
        Some (User.mk socket_id (JString palette_color) ("User" +:+ pretty (n + 1))
                (JNumber 0) (JNumber 0))
    ∧ jsmap_size (users (server sys')) = S n.
Proof.
  intros Hr Hfresh n.
  destruct (lookup_lt_is_Some_2 colors (n mod length colors)) as [c Hc].
  { apply Nat.mod_upper_bound. simpl. lia. }
  eexists _, _, c. unfold step.
  assert (enabled sys (EConnection socket_id) = true) as ->
    by (by apply bool_decide_eq_true_2).
  simpl handle. rewrite on_connection_eq. cbv zeta.
  split_and!; [reflexivity | done | |]; simpl.
  - rewrite jsmap_get_set_eq. unfold new_user, array_get. fold n. by rewrite Hc.
  - apply jsmap_size_set_fresh. apply jsmap_has_false.
    by rewrite (proj1 (reachable_registry sys Hr)).
Qed.

(** C2 at work: C joins after A and B and becomes "User3" with the third
    palette color. *)
Lemma connection_registers_user_witness :
  reachable after_two_strokes ∧ ("C" ∉ connected after_two_strokes)
  ∧ ∃ sys' out,
      step after_two_strokes (EConnection "C") = Some (sys', out)
      ∧ jsmap_get "C" (users (server sys')) =
          Some (User.mk "C" (JString "#45B7D1") "User3" (JNumber 0) (JNumber 0))
      ∧ jsmap_size (users (server sys')) = 3.
Proof.
  assert ("C" ∉ connected after_two_strokes) as Hfresh.
  { simpl. rewrite !not_elem_of_cons. split_and!; [done | done | apply not_elem_of_nil]. }
  split; [exact reachable_after_two_strokes|]. split; [exact Hfresh|].
  destruct (connection_registers_user after_two_strokes "C"
              reachable_after_two_strokes Hfresh) as (sys' & out & c & Hstep & Hc & Hrec & Hsize).
  exists sys', out. vm_compute in Hc. injection Hc as <-. done.
Defined.

(** C3. What a joining socket is sent.  The handler first writes the
    joiner's record into the registry, then sends [loadDrawingHistory] to
    that socket alone, then sends the user list to every connected socket,
    and does nothing else.  The history sent is the history as it stands
    when the socket joins, and that is the log the specification describes
    for the events handled so far: the commands of the draw and erase
    events, in order, less those an undo took back and those a clear
    wiped. *)
Theorem joiner_receives_history (es : list Event) (sys : System) (sent : list Packet)
    (socket_id : SocketId) :
  run boot es = Some (sys, sent) → socket_id ∉ connected sys →
  ∃ sys',
    step sys (EConnection socket_id) =
      Some (sys', [ (ToSocket socket_id, loadDrawingHistory (Spec.log_after es));
                    (ToAll, userListUpdate (user_list (users (server sys')))) ])
    ∧ Code.on_connection socket_id (server sys) =
        Finished tt (server sys')
          [ WroteUsers (users (server sys'));
            Emitted (ToSocket socket_id, loadDrawingHistory (Spec.log_after es));
            Emitted (ToAll, userListUpdate (user_list (users (server sys')))) ]
    ∧ jsmap_has socket_id (users (server sys')) = true
    ∧ drawingHistory (server sys) = Spec.log_after es
    ∧ drawingHistory (server sys') = Spec.log_after es
    ∧ recipients (connected sys') (ToSocket socket_id) = [socket_id]
    ∧ recipients (connected sys') ToAll = connected sys'
    ∧ socket_id ∈ connected sys'.
Proof.
  intros Hrun Hfresh.
  pose proof (run_log_after es sys sent Hrun) as Hlog.
  exists (mkSystem (connected sys ++ [socket_id])
            (mkServer
               (jsmap_set socket_id (new_user socket_id (users (server sys)))
                  (users (server sys)))
               (drawingHistory (server sys)))).
  unfold step.
  assert (enabled sys (EConnection socket_id) = true) as ->
    by (by apply bool_decide_eq_true_2).
  simpl handle. rewrite on_connection_eq, on_connection_journal. cbv zeta.
  rewrite <- Hlog. split_and!; [reflexivity | reflexivity | | done | done | done | done |]; simpl.
  - unfold jsmap_has. by rewrite jsmap_get_set_eq.
  - apply elem_of_app. right. by apply list_elem_of_singleton.
Qed.

(** C3 at work: C joins after A and B have each drawn a segment. *)
Lemma joiner_receives_history_witness :
  ∃ sent,
    run boot two_strokes = Some (after_two_strokes, sent)
    ∧ ("C" ∉ connected after_two_strokes)
    ∧ Spec.log_after two_strokes = drawingHistory (server after_two_strokes)
    ∧ ∃ sys' users',
        step after_two_strokes (EConnection "C") =
          Some (sys', [ (ToSocket "C", loadDrawingHistory (drawingHistory (server after_two_strokes)));
                        (ToAll, userListUpdate users') ])
        ∧ UserInfo.id <$> users' = ["A"; "B"; "C"].
Proof.
  destruct run_two_strokes as [sent Hrun].
  assert ("C" ∉ connected after_two_strokes) as Hfresh.
  { simpl. rewrite !not_elem_of_cons. split_and!; [done | done | apply not_elem_of_nil]. }
  exists sent. split; [exact Hrun|]. split; [exact Hfresh|]. split; [reflexivity|].
  destruct (joiner_receives_history two_strokes after_two_strokes sent "C" Hrun Hfresh)
    as (sys' & Hstep & _).
  exists sys', (user_list (users (server sys'))). split; [exact Hstep|].
  vm_compute in Hstep. injection Hstep as <-. reflexivity.
Defined.

(** C4. A [draw] or [erase] (of a payload whose fields can be read; without
    one the handler throws and nothing is sent) is sent with
    [socket.broadcast.emit]: it
    reaches exactly the connected sockets other than the sender.  An
    [undoAction] (sent when an entry of the sender was removed) and
    [canvasCleared] are sent with [io.emit]: they reach every connected
    socket, the sender included. *)
Theorem broadcast_scopes (s : Server) (socket_id : SocketId) (conn : list SocketId) :
  (∀ data now user, jsmap_get socket_id (users s) = Some user →
     ∃ s' command, on_draw socket_id (Fields data) now s =
                     Returns tt s' [ (ToOthers socket_id, draw command) ])
  ∧ (∀ data now,
       ∃ s' command, on_erase socket_id (Fields data) now s =
                       Returns tt s' [ (ToOthers socket_id, erase command) ])
  ∧ (∀ c, c ∈ recipients conn (ToOthers socket_id) ↔ c ∈ conn ∧ c ≠ socket_id)
  ∧ (∀ i, last_action_of socket_id (drawingHistory s) i →
       ∃ s' history, on_undo socket_id s =
                       Returns tt s' [ (ToAll, undoAction socket_id history) ])
  ∧ (∃ s', on_clearCanvas socket_id s = Returns tt s' [ (ToAll, canvasCleared) ])
  ∧ recipients conn ToAll = conn
  ∧ (socket_id ∈ conn → socket_id ∈ recipients conn ToAll)
  ∧ (∀ now, (∃ err, on_draw socket_id Nullish now s = Throws err)
            ∧ (∃ err, on_erase socket_id Nullish now s = Throws err)).
Proof.
  split_and!.
  - intros data now user Hu. eexists _, _. by apply on_draw_registered.
  - intros data now. eexists _, _. apply on_erase_eq.
  - intros c. apply recipients_others.
  - intros i Hi. eexists _, _. by apply on_undo_found.
  - eexists. apply on_clearCanvas_eq.
  - done.
  - done.
  - intros now. split; [|eexists; apply on_erase_nullish].
    destruct (jsmap_get socket_id (users s)) as [u|] eqn:Hu; eexists.
    + by apply (on_draw_nullish _ _ _ u).
    + by apply on_draw_unregistered.
Qed.

(** C4 at work, with A, B and C connected and A the sender. *)
Lemma broadcast_scopes_witness :
  recipients ["A"; "B"; "C"] (ToOthers "A") = ["B"; "C"]
  ∧ recipients ["A"; "B"; "C"] ToAll = ["A"; "B"; "C"]
  ∧ (∃ s' command, on_draw "A" (Fields stroke) 102 (server after_two_strokes) =
                     Returns tt s' [ (ToOthers "A", draw command) ])
  ∧ (∃ s' history, on_undo "A" (server after_two_strokes) =
                     Returns tt s' [ (ToAll, undoAction "A" history) ]).
Proof.
  destruct (broadcast_scopes (server after_two_strokes) "A" ["A"; "B"; "C"])
    as (Hdraw & _ & _ & Hundo & _ & Hall & _ & _).
  split; [reflexivity|]. split; [exact Hall|]. split.
  - apply (Hdraw stroke 102%Z (User.mk "A" (JString "#FF6B6B") "User1" (JNumber 0) (JNumber 0))).
    reflexivity.
  - apply (Hundo 0). split.
    + eexists. split; reflexivity.
    + intros [|[|j]] c' Hj Hc'; [lia | | done].
      injection Hc' as <-. done.
Defined.

(** C5. [clearCanvas] empties the history whatever it held, touching
    nothing else, and handling it again leaves that same state. *)
Theorem clearCanvas_empties_and_is_idempotent (s : Server) (socket_id socket_id' : SocketId) :
  ∃ s1,
    on_clearCanvas socket_id s = Returns tt s1 [ (ToAll, canvasCleared) ]
    ∧ drawingHistory s1 = []
    ∧ users s1 = users s
    ∧ on_clearCanvas socket_id' s1 = Returns tt s1 [ (ToAll, canvasCleared) ].
Proof.
  exists (mkServer (users s) []). rewrite !on_clearCanvas_eq. done.
Qed.

(** C6, as stated, fails: B is connected and registered, and a
    [cursorMove] from B that carries no payload overwrites nothing and
    broadcasts nothing: reading [data.x] throws. *)
Lemma cursorMove_without_payload_throws :
  reachable after_two_strokes
  ∧ "B" ∈ connected after_two_strokes
  ∧ jsmap_has "B" (users (server after_two_strokes)) = true
  ∧ on_cursorMove "B" Nullish (server after_two_strokes) =
      Throws (TypeError "data is undefined or null")
  ∧ ¬ ∃ s' out, on_cursorMove "B" Nullish (server after_two_strokes) = Returns tt s' out.
Proof.
  split; [exact reachable_after_two_strokes|].
  split; [apply list_elem_of_further, list_elem_of_here|].
  split; [reflexivity|]. split; [reflexivity|].
  intros (s' & out & Hret). discriminate Hret.
Qed.

Lemma on_cursorMove_nullish_journal (socket_id : SocketId) (s : Server) (user : User.t) :
  jsmap_get socket_id (users s) = Some user →
  Code.on_cursorMove socket_id Nullish s = Aborted (TypeError "data is undefined or null") [].
Proof.
  intros Hu. unfold Code.on_cursorMove, mbind, Journal_bind, get_users, prop, throw.
  unfold jsmap_has. by rewrite Hu.
Qed.

(** C6, amended.  [cursorMove] from a socket that is not in the registry
    does nothing at all, whatever it carries: same state, no packet.  From
    a registered socket, with a payload whose fields can be read, it
    overwrites the stored cursor with the event's coordinates (the rest of
    the record, the other records, the order of the registry and the
    history stay) and sends a [cursorUpdate] with the sender's username
    and color to the other connected sockets.  From a registered socket
    with [undefined] or [null] for payload it throws a [TypeError] before
    it has written or emitted anything. *)
Theorem cursorMove_guarded (s : Server) (socket_id : SocketId) (conn : list SocketId) :
  (jsmap_has socket_id (users s) = false →
     ∀ payload, on_cursorMove socket_id payload s = Returns tt s [])
  ∧ (∀ user data, jsmap_get socket_id (users s) = Some user →
       ∃ s',
         on_cursorMove socket_id (Fields data) s =
           Returns tt s'
             [ (ToOthers socket_id,
                cursorUpdate (CursorUpdate.mk socket_id (User.username user)
                                (CursorData.x data) (CursorData.y data) (User.color user))) ]
         ∧ jsmap_get socket_id (users s') =
             Some (User.mk (User.id user) (User.color user) (User.username user)
                     (CursorData.x data) (CursorData.y data))
         ∧ (∀ k, k ≠ socket_id → jsmap_get k (users s') = jsmap_get k (users s))
         ∧ jsmap_keys (users s') = jsmap_keys (users s)
         ∧ drawingHistory s' = drawingHistory s)
  ∧ (∀ user, jsmap_get socket_id (users s) = Some user →
       on_cursorMove socket_id Nullish s = Throws (TypeError "data is undefined or null")
       ∧ Code.on_cursorMove socket_id Nullish s =
           Aborted (TypeError "data is undefined or null") [])
  ∧ (∀ c, c ∈ recipients conn (ToOthers socket_id) ↔ c ∈ conn ∧ c ≠ socket_id).
Proof.
  split_and!.
  - intros Hhas payload. by apply on_cursorMove_unregistered.
  - intros user data Hu. eexists. split; [by apply on_cursorMove_registered|]. simpl.
    split_and!.
    + rewrite jsmap_get_update_eq, Hu. done.
    + intros k Hk. by apply jsmap_get_update_ne.
    + apply jsmap_keys_update.
    + done.
  - intros user Hu. split.
    + by apply (on_cursorMove_nullish _ _ user).
    + by apply (on_cursorMove_nullish_journal _ _ user).
  - intros c. apply recipients_others.
Qed.

(** C6 (amended) at work: an unknown socket Z, then the registered socket
    B with and without coordinates. *)
Lemma cursorMove_guarded_witness :
  on_cursorMove "Z" Nullish (server after_two_strokes) =
    Returns tt (server after_two_strokes) []
  ∧ (∃ s',
      on_cursorMove "B" (Fields pointer) (server after_two_strokes) =
        Returns tt s'
          [ (ToOthers "B",
             cursorUpdate (CursorUpdate.mk "B" "User2" (JNumber 5) (JNumber 7) (JString "#4ECDC4"))) ]
      ∧ jsmap_get "B" (users s') =
          Some (User.mk "B" (JString "#4ECDC4") "User2" (JNumber 5) (JNumber 7)))
  ∧ on_cursorMove "B" Nullish (server after_two_strokes) =
      Throws (TypeError "data is undefined or null").
Proof.
  destruct (cursorMove_guarded (server after_two_strokes) "Z" []) as (Hno & _).
  destruct (cursorMove_guarded (server after_two_strokes) "B" []) as (_ & Hreg & Hnull & _).
  split; [exact (Hno eq_refl Nullish)|]. split.
  - destruct (Hreg (User.mk "B" (JString "#4ECDC4") "User2" (JNumber 0) (JNumber 0)) pointer
                eq_refl) as (s' & Hrun & Hget & _).
    exists s'. split; [exact Hrun | exact Hget].
  - exact (proj1 (Hnull (User.mk "B" (JString "#4ECDC4") "User2" (JNumber 0) (JNumber 0))
                    eq_refl)).
Defined.

Lemma user_list_ids (us : JsMap User.t) :
  registry_wf us → UserInfo.id <$> user_list us = jsmap_keys us.
Proof.
  intros [_ Hid]. unfold user_list, jsmap_values, jsmap_keys.
  induction Hid as [|[k u] us Hk _ IH]; csimpl; [done|].
  simpl in Hk. by rewrite Hk, IH.
Qed.

Lemma user_list_delete (us : JsMap User.t) (k : string) :
  registry_wf us →
  user_list (jsmap_delete k us) = filter (λ u, UserInfo.id u ≠ k) (user_list us).
Proof.
  intros [_ Hid]. unfold user_list, jsmap_values.
  induction Hid as [|[k0 u] us Hk _ IH]; csimpl; [done|].
  simpl in Hk. case_bool_decide as Hk0; subst.
  - rewrite filter_cons_False by (simpl; intros ?; done). done.
  - rewrite filter_cons_True by (simpl; congruence). csimpl. by rewrite IH.
Qed.

(** C7. [disconnect] deletes the socket's record: the id is no longer in
    the registry, which is one smaller if the id was in it (and the same
    otherwise), the other records stay; the history is untouched; every
    connected socket is sent [cursorRemoved] for the id and then the user
    list, which is the previous list without the entry of that id. *)
Theorem disconnect_unregisters (s : Server) (socket_id : SocketId) (conn : list SocketId) :
  registry_wf (users s) →
  ∃ s',
    on_disconnect socket_id s =
      Returns tt s' [ (ToAll, cursorRemoved socket_id);
                      (ToAll, userListUpdate (user_list (users s'))) ]
    ∧ jsmap_has socket_id (users s') = false
    ∧ (jsmap_has socket_id (users s) = true →
         jsmap_size (users s) = S (jsmap_size (users s')))
    ∧ (jsmap_has socket_id (users s) = false → users s' = users s)
    ∧ (∀ k, k ≠ socket_id → jsmap_get k (users s') = jsmap_get k (users s))
    ∧ drawingHistory s' = drawingHistory s
    ∧ recipients conn ToAll = conn
    ∧ user_list (users s') = filter (λ u, UserInfo.id u ≠ socket_id) (user_list (users s))
    ∧ socket_id ∉ UserInfo.id <$> user_list (users s').
Proof.
  intros Hwf.
  exists (mkServer (jsmap_delete socket_id (users s)) (drawingHistory s)).
  rewrite on_disconnect_eq. cbv zeta.
  split; [reflexivity|]. simpl. split_and!.
  - apply jsmap_has_delete.
  - by apply jsmap_size_delete, Hwf.
  - apply jsmap_delete_absent.
  - intros k Hk. by apply jsmap_get_delete_ne.
  - done.
  - done.
  - by apply user_list_delete.
  - rewrite user_list_ids by (by apply (registry_wf_after (EDisconnect socket_id))).
    apply jsmap_has_false, jsmap_has_delete.
Qed.

(** C7 at work: A leaves after A and B have each drawn a segment. *)
Lemma disconnect_unregisters_witness :
  registry_wf (users (server after_two_strokes))
  ∧ ∃ s',
      on_disconnect "A" (server after_two_strokes) =
        Returns tt s'
          [ (ToAll, cursorRemoved "A");
            (ToAll, userListUpdate [ UserInfo.mk "B" "User2" (JString "#4ECDC4") ]) ]
      ∧ jsmap_size (users s') = 1
      ∧ drawingHistory s' = drawingHistory (server after_two_strokes).
Proof.
  pose proof (proj2 (reachable_registry _ reachable_after_two_strokes)) as Hwf.
  split; [exact Hwf|].
  destruct (disconnect_unregisters (server after_two_strokes) "A" [] Hwf)
    as (s' & Hrun & _ & Hsize & _ & _ & Hh & _).
  exists s'. split_and!.
  - rewrite Hrun. vm_compute in Hrun. injection Hrun as <-. reflexivity.
  - specialize (Hsize eq_refl). simpl in Hsize. lia.
  - exact Hh.
Defined.

(** C8. Usernames are not unique.  A joins, B joins, A leaves, C joins:
    a sequence of connects and disconnects in which no id connects twice,
    after which B and C are both connected and both registered as
    "User2" (C was named by the registry's size when it joined, which A's
    leaving had brought back to one). *)
Theorem usernames_can_collide :
  ∃ sys sent user_b user_c,
    forallb is_join_or_leave churn = true
    ∧ ids_never_reused churn
    ∧ run boot churn = Some (sys, sent)
    ∧ connected sys = ["B"; "C"]
    ∧ jsmap_get "B" (users (server sys)) = Some user_b
    ∧ jsmap_get "C" (users (server sys)) = Some user_c
    ∧ User.username user_b = "User2"
    ∧ User.username user_c = "User2".
Proof.
  eexists _, _, _, _.
  split; [reflexivity|].
  split.
  { unfold ids_never_reused. simpl.
    repeat (apply NoDup_cons_2;
            [rewrite ?not_elem_of_cons; split_and?; try done; apply not_elem_of_nil|]).
    apply NoDup_nil_2. }
  split; [vm_compute; reflexivity|].
  by split_and!.
Qed.

Lemma handle_returns (e : Event) (s : Server) :
  (∀ id data now, e = EDraw id data now → jsmap_has id (users s) = true) →
  carries_payload e = true →
  ∃ s' out, handle e s = Returns tt s' out.
Proof.
  intros Hdraw Hpayload.
  destruct (handle_cases e s); try done; try (by eexists _, _).
  match goal with H : jsmap_get _ _ = None |- _ => rename H into Hnone end.
  specialize (Hdraw _ _ _ eq_refl). unfold jsmap_has in Hdraw. by rewrite Hnone in Hdraw.
Qed.

Lemma handle_throws (e : Event) (s : Server) (err : JsError) :
  handle e s = Throws err →
  (∃ id data now, e = EDraw id data now ∧ jsmap_has id (users s) = false
                  ∧ err = TypeError "users.get(socket.id) is undefined")
  ∨ (carries_payload e = false ∧ err = TypeError "data is undefined or null"
     ∧ ∀ id, e = ECursorMove id Nullish → jsmap_has id (users s) = true).
Proof.
  intros Hh. pose proof (handle_cases e s) as Hcase. rewrite Hh in Hcase.
  inversion Hcase; subst.
  - left. eexists _, _, _. split; [done|]. split; [|done].
    unfold jsmap_has. by match goal with H : jsmap_get _ _ = None |- _ => rewrite H end.
  - right. split_and!; [done | done | by intros ? [=]].
  - right. split_and!; [done | done | by intros ? [=]].
  - right. split_and!; [done | done |]. intros ? [= <-]. unfold jsmap_has.
    by match goal with H : jsmap_get _ _ = Some _ |- _ => rewrite H end.
Qed.

Lemma connected_during_keeps (e : Event) (conn : list SocketId) (socket_id : SocketId) :
  socket_id ∈ conn → e ≠ EDisconnect socket_id → socket_id ∈ connected_during e conn.
Proof.
  intros Hc Hne.
  destruct e as [id | id data now | id data now | id data | id | id | id | id];
    simpl; try done.
  - apply elem_of_app. by left.
  - apply list_elem_of_filter. split; [congruence | done].
Qed.

(** C9. In every state the server can reach, a connected socket (the only
    kind whose draw, erase, undo and cursorMove handlers fire) has a record
    in the registry: [connection] stored it and nothing but that socket's
    own [disconnect] takes it out.  So [users.get(socket.id).color] in the
    draw handler always finds a record: whatever the payload, the handler
    never throws for a missing record, and with a payload whose fields can
    be read it returns.  More generally, on an event the transport can
    deliver a handler throws only for a payload that is [undefined] or
    [null]. *)
Theorem connected_sockets_are_registered (sys : System) (socket_id : SocketId) :
  reachable sys → socket_id ∈ connected sys →
  (∃ user, jsmap_get socket_id (users (server sys)) = Some user)
  ∧ (∀ payload now,
       on_draw socket_id payload now (server sys) ≠
         Throws (TypeError "users.get(socket.id) is undefined"))
  ∧ (∀ data now, ∃ s' out,
       on_draw socket_id (Fields data) now (server sys) = Returns tt s' out)
  ∧ (∀ e, enabled sys e = true →
       (carries_payload e = true → ∃ sys' out, step sys e = Some (sys', out))
       ∧ (∀ err, handle e (server sys) = Throws err →
            carries_payload e = false ∧ err = TypeError "data is undefined or null"))
  ∧ (∀ e sys' out, step sys e = Some (sys', out) → e ≠ EDisconnect socket_id →
       socket_id ∈ connected sys' ∧ jsmap_has socket_id (users (server sys')) = true).
Proof.
  intros Hr Hc.
  assert (∀ e id data now, enabled sys e = true → e = EDraw id data now →
            jsmap_has id (users (server sys)) = true) as Hdraw.
  { intros e id data now Hen ->. simpl in Hen. apply bool_decide_eq_true_1 in Hen.
    apply jsmap_has_true. by rewrite (proj1 (reachable_registry sys Hr)). }
  destruct (reachable_registered sys socket_id Hr Hc) as [u Hu].
  split_and!.
  - by exists u.
  - intros [|data] now.
    + by rewrite (on_draw_nullish _ _ _ _ Hu).
    + by rewrite (on_draw_registered _ _ _ _ _ Hu).
  - intros data now. rewrite (on_draw_registered _ _ _ _ _ Hu). by eexists _, _.
  - intros e Hen. split.
    + intros Hpayload. unfold step. rewrite Hen.
      destruct (handle_returns e (server sys)) as (s' & out & ->);
        [intros id data now He; by apply (Hdraw e id data now) | done | by eexists _, _].
    + intros err Herr.
      destruct (handle_throws _ _ _ Herr) as [(id & data & now & -> & Hhas & _) | (? & ? & _)];
        [|done].
      rewrite (Hdraw _ _ _ _ Hen eq_refl) in Hhas. done.
  - intros e sys' out Hstep Hne.
    assert (reachable sys') as Hr' by (by eapply reachable_step).
    apply step_inv in Hstep as (_ & _ & Hconn).
    assert (socket_id ∈ connected sys') as Hc'
      by (rewrite Hconn; by apply connected_during_keeps).
    split; [done|]. apply jsmap_has_true.
    by rewrite (proj1 (reachable_registry sys' Hr')).
Qed.

(** C9 at work: B is connected, hence registered, and can draw. *)
Lemma connected_sockets_are_registered_witness :
  reachable after_two_strokes ∧ "B" ∈ connected after_two_strokes
  ∧ (∃ user, jsmap_get "B" (users (server after_two_strokes)) = Some user)
  ∧ (∃ s' out, on_draw "B" (Fields stroke) 102 (server after_two_strokes) = Returns tt s' out)
  ∧ on_draw "B" Nullish 102 (server after_two_strokes) ≠
      Throws (TypeError "users.get(socket.id) is undefined").
Proof.
  assert ("B" ∈ connected after_two_strokes) as Hc
    by apply list_elem_of_further, list_elem_of_here.
  split; [exact reachable_after_two_strokes|]. split; [exact Hc|].
  destruct (connected_sockets_are_registered after_two_strokes "B"
              reachable_after_two_strokes Hc) as (Hreg & Hnever & Hdraw & _).
  split; [exact Hreg|]. split; [exact (Hdraw stroke 102%Z) | exact (Hnever Nullish 102%Z)].
Defined.

(** C10, as stated, fails: a [cursorMove] is neither a connect nor a
    disconnect, yet it changes the registry (the sender's stored cursor). *)
Lemma cursorMove_mutates_registry :
  ¬ (∀ sys e sys' out,
       reachable sys → step sys e = Some (sys', out) → is_join_or_leave e = false →
       users (server sys') = users (server sys)).
Proof.
  intros Hframe.
  destruct (step after_two_strokes (ECursorMove "B" (Fields pointer)))
    as [[sys' out]|] eqn:Hstep; [|by vm_compute in Hstep].
  pose proof (Hframe _ _ _ _ reachable_after_two_strokes Hstep eq_refl) as Heq.
  vm_compute in Hstep. injection Hstep as <- _. vm_compute in Heq. discriminate Heq.
Qed.

(** C10, amended.  draw, erase, undo and clearCanvas (and redo) leave the
    registry exactly as it was; cursorMove, connect, disconnect (and redo)
    leave the history exactly as it was.  Only connect and disconnect
    change which ids are registered, in which order, and the id, username
    and color stored for each: what a cursorMove changes in the registry
    is the cursor of the sender's own record and nothing else (and nothing
    at all when it carries no coordinates to read). *)
Theorem handlers_frame (e : Event) (s s' : Server) (out : list Packet) :
  handle e s = Returns tt s' out →
  (leaves_registry e = true → users s' = users s)
  ∧ (leaves_history e = true → drawingHistory s' = drawingHistory s)
  ∧ (is_join_or_leave e = false →
       jsmap_keys (users s') = jsmap_keys (users s)
       ∧ user_list (users s') = user_list (users s))
  ∧ (∀ id payload, e = ECursorMove id payload →
       drawingHistory s' = drawingHistory s
       ∧ (∀ data, payload = Fields data →
            jsmap_get id (users s') = move_cursor data <$> jsmap_get id (users s))
       ∧ (payload = Nullish → users s' = users s)
       ∧ ∀ k, k ≠ id → jsmap_get k (users s') = jsmap_get k (users s)).
Proof.
  intros Hh. pose proof (handle_registry _ _ _ _ Hh) as Hus. split_and!.
  - intros He. rewrite Hus. by destruct e.
  - intros He. by eapply handle_history.
  - intros He. rewrite Hus.
    destruct e as [id | id data now | id data now | id [|data] | id | id | id | id];
      simpl; try done.
    destruct (jsmap_has id (users s)); [|done].
    split; [apply jsmap_keys_update|].
    apply jsmap_values_update. by intros [].
  - intros id payload ->.
    split; [by eapply (handle_history (ECursorMove id payload))|].
    rewrite Hus. destruct payload as [|data0]; simpl.
    + split_and!; [by intros ? [=] | done | done].
    + split_and!; [|by intros [=]|].
      * intros data [= <-]. destruct (jsmap_has id (users s)) eqn:Hhas.
        -- apply jsmap_get_update_eq.
        -- unfold jsmap_has in Hhas. by destruct (jsmap_get id (users s)).
      * intros k Hk. destruct (jsmap_has id (users s)); [|done].
        by apply jsmap_get_update_ne.
Qed.

(** C10 (amended) at work: B moves its cursor. *)
Lemma handlers_frame_witness :
  ∃ s' out,
    handle (ECursorMove "B" (Fields pointer)) (server after_two_strokes) = Returns tt s' out
    ∧ drawingHistory s' = drawingHistory (server after_two_strokes)
    ∧ user_list (users s') = user_list (users (server after_two_strokes))
    ∧ jsmap_get "B" (users s') =
        Some (User.mk "B" (JString "#4ECDC4") "User2" (JNumber 5) (JNumber 7)).
Proof.
  destruct (handle_returns (ECursorMove "B" (Fields pointer)) (server after_two_strokes))
    as (s' & out & Hh); [done | done |].
  exists s', out. split; [exact Hh|].
  destruct (handlers_frame _ _ _ _ Hh) as (_ & Hhist & Hlist & Hcur).
  split; [exact (Hhist eq_refl)|]. split; [exact (proj2 (Hlist eq_refl))|].
  destruct (Hcur "B" (Fields pointer) eq_refl) as (_ & Hget & _). exact (Hget pointer eq_refl).
Defined.

(** * Further properties of the handlers *)

(** ** The history a handler leaves behind *)

Lemma handle_history_cases (e : Event) (s s' : Server) (out : list Packet) :
  handle e s = Returns tt s' out →
  match e with
  | EDraw id (Fields data) now =>
      ∃ user, jsmap_get id (users s) = Some user
        ∧ drawingHistory s' =
            drawingHistory s ++
              [CDraw (DrawCommand.mk id (User.color user)
                        (DrawData.x1 data) (DrawData.y1 data) (DrawData.x2 data)
                        (DrawData.y2 data) (DrawData.strokeWidth data) now)]
  | EErase id (Fields data) now =>
      drawingHistory s' =
        drawingHistory s ++
          [CErase (EraseCommand.mk id (EraseData.x data) (EraseData.y data)
                     (EraseData.radius data) now)]
  | EDraw _ Nullish _ | EErase _ Nullish _ => False
  | EUndo id =>
      (∃ i, last_action_of id (drawingHistory s) i
            ∧ drawingHistory s' = delete i (drawingHistory s))
      ∨ (no_action_of id (drawingHistory s) ∧ drawingHistory s' = drawingHistory s)
  | EClearCanvas _ => drawingHistory s' = []
  | _ => drawingHistory s' = drawingHistory s
  end.
Proof.
  intros Hh. handler_cases Hh; simpl; try done.
  - by eexists.
  - left. by eexists.
  - by right.
Qed.

Lemma handle_history_sublist (e : Event) (s s' : Server) (out : list Packet) :
  handle e s = Returns tt s' out →
  (∃ c, drawingHistory s' = drawingHistory s ++ [c]
        ∧ ∃ now, Cmd.timestamp c = now ∧ clock [e] = [now])
  ∨ (drawingHistory s' `sublist_of` drawingHistory s ∧ clock [e] = []).
Proof.
  intros Hh. handler_cases Hh; simpl;
    try (right; split; [done | reflexivity]);
    try (left; eexists; split; [done|]; by eexists).
  - right. split; [apply sublist_delete | done].
  - right. split; [apply sublist_nil_l | done].
Qed.

(** ** The palette *)

Lemma generateColor_eq (s : Server) :
  generateColor s = Returns (array_get colors (jsmap_size (users s) mod 12)) s [].
Proof. reflexivity. Qed.

(** X1. [generateColor] reads the registry's size and nothing else: it
    changes no state and emits nothing, it always returns one of the
    twelve palette strings (the index [size % 12] is in range, so never
    [undefined]), and two registries whose sizes agree modulo 12, such as
    [n] and [n + 12] users, get the same color. *)
Theorem generateColor_cycles_through_palette (s s' : Server) :
  (∃ c, c ∈ colors
        ∧ colors !! (jsmap_size (users s) mod 12) = Some c
        ∧ generateColor s = Returns (JString c) s [])
  ∧ (jsmap_size (users s') mod 12 = jsmap_size (users s) mod 12 →
       ∃ v, generateColor s = Returns v s [] ∧ generateColor s' = Returns v s' []).
Proof.
  split.
  - destruct (lookup_lt_is_Some_2 colors (jsmap_size (users s) mod 12)) as [c Hc].
    { change (length colors) with 12. apply Nat.mod_upper_bound. lia. }
    exists c. split; [by eapply list_elem_of_lookup_2|]. split; [done|].
    rewrite generateColor_eq. unfold array_get. by rewrite Hc.
  - intros Hmod. eexists. split; [apply generateColor_eq|].
    rewrite generateColor_eq. by rewrite Hmod.
Qed.

(** X1 at work: with twelve sockets connected, the thirteenth would get the
    first one's color. *)
Lemma generateColor_cycles_through_palette_witness :
  ∃ sys sent v,
    run boot (EConnection ∘ pretty <$> seq 0 12) = Some (sys, sent)
    ∧ jsmap_size (users (server sys)) = 12
    ∧ generateColor initial = Returns v initial []
    ∧ generateColor (server sys) = Returns v (server sys) []
    ∧ v = JString "#FF6B6B".
Proof.
  destruct (run boot (EConnection ∘ pretty <$> seq 0 12)) as [[sys sent]|] eqn:Hrun;
    [|by vm_compute in Hrun].
  assert (jsmap_size (users (server sys)) = 12) as Hsize
    by (vm_compute in Hrun; by injection Hrun as <- _).
  destruct (generateColor_cycles_through_palette initial (server sys)) as [_ Hsame].
  destruct Hsame as (v & H1 & H2); [by rewrite Hsize|].
  exists sys, sent, v. split; [reflexivity|]. split; [exact Hsize|].
  split; [exact H1|]. split; [exact H2|].
  vm_compute in H1. by injection H1 as <-.
Defined.

Lemma array_get_palette (n : nat) : palette_color (array_get colors (n mod length colors)).
Proof.
  destruct (lookup_lt_is_Some_2 colors (n mod length colors)) as [c Hc].
  { apply Nat.mod_upper_bound. simpl. lia. }
  exists c. split; [by eapply list_elem_of_lookup_2|].
  unfold array_get. by rewrite Hc.
Qed.

Lemma jsmap_get_elem_of {V : Type} (m : JsMap V) (k : string) (v : V) :
  jsmap_get k m = Some v → (k, v) ∈ m.
Proof.
  induction m as [|[k0 v0] m IH]; simpl; [done|].
  case_bool_decide; subst.
  - intros [= ->]. apply list_elem_of_here.
  - intros Hget. by apply list_elem_of_further, IH.
Qed.

(** ** The registry and the connections *)



Lemma well_formed_new_user (socket_id : SocketId) (us : JsMap User.t) :
  well_formed_user (new_user socket_id us).
Proof.
  split; [apply array_get_palette|]. exists (jsmap_size us + 1). split; [lia | done].
Qed.

Lemma handle_well_formed (e : Event) (s s' : Server) (out : list Packet) :
  handle e s = Returns tt s' out →
  Forall (λ kv, well_formed_user kv.2) (users s) ∧ Forall well_colored (drawingHistory s) →
  Forall (λ kv, well_formed_user kv.2) (users s') ∧ Forall well_colored (drawingHistory s').
Proof.
  intros Hh [Hus Hhist]. split.
  - rewrite (handle_registry _ _ _ _ Hh).
    destruct e as [id | id data now | id data now | id [|data] | id | id | id | id];
      simpl; try done.
    + apply Forall_jsmap_set; [done | apply well_formed_new_user].
    + destruct (jsmap_has id (users s)); [|done].
      apply Forall_jsmap_update; [|done]. by intros k' [].
    + by apply Forall_jsmap_delete.
  - apply handle_history_cases in Hh.
    destruct e as [id | id [|data] now | id [|data] now | id data | id | id | id | id];
      try done; try (by rewrite Hh).
    + destruct Hh as (u & Hu & ->). apply Forall_app. split; [done|].
      apply Forall_singleton. simpl.
      apply jsmap_get_elem_of in Hu. rewrite Forall_forall in Hus.
      apply (Hus _ Hu).
    + rewrite Hh. apply Forall_app. split; [done|]. by apply Forall_singleton.
    + destruct Hh as [(i & _ & ->) | [_ ->]]; [by apply Forall_delete | done].
Qed.

(** X3. In every state the server can reach, every registered user has a
    palette color and a username of the form "User" followed by a positive
    number, and every draw command in the history carries a palette color
    (the color its author had in the registry when it was drawn): no stroke
    is ever recorded with an [undefined] color. *)
Theorem colors_come_from_the_palette (sys : System) :
  reachable sys →
  (∀ k user, jsmap_get k (users (server sys)) = Some user → well_formed_user user)
  ∧ (∀ c, c ∈ drawingHistory (server sys) → well_colored c).
Proof.
  intros Hr.
  assert (Forall (λ kv, well_formed_user kv.2) (users (server sys))
          ∧ Forall well_colored (drawingHistory (server sys))) as [Hus Hhist].
  { induction Hr as [|sys e sys' out _ IH Hstep].
    - split; constructor.
    - apply step_inv in Hstep as (_ & Hh & _). by apply (handle_well_formed _ _ _ _ Hh). }
  split.
  - intros k user Hget. apply jsmap_get_elem_of in Hget.
    rewrite Forall_forall in Hus. apply (Hus _ Hget).
  - by apply Forall_forall.
Qed.

(** X3 at work, on B's record and on the two recorded strokes. *)
Lemma colors_come_from_the_palette_witness :
  reachable after_two_strokes
  ∧ palette_color (JString "#4ECDC4")
  ∧ Forall well_colored (drawingHistory (server after_two_strokes)).
Proof.
  split; [exact reachable_after_two_strokes|].
  destruct (colors_come_from_the_palette after_two_strokes reachable_after_two_strokes)
    as [Hus Hhist].
  split.
  - exact (proj1 (Hus "B" (User.mk "B" (JString "#4ECDC4") "User2" (JNumber 0) (JNumber 0))
                    eq_refl)).
  - apply Forall_forall. exact Hhist.
Defined.

(** ** [findLastUserAction] on its own *)

(** X4. [findLastUserAction] only reads: it returns without touching the
    state or emitting, and never reads past either end of the array.  Its
    result is [-1] exactly when the history holds no entry of the user (in
    particular on the empty history); otherwise it is the index, within
    bounds, of the user's most recent entry. *)
Theorem findLastUserAction_contract (s : Server) (userId : SocketId) :
  ∃ i : Z,
    findLastUserAction userId s = Returns i s []
    ∧ (-1 ≤ i < Z.of_nat (length (drawingHistory s)))%Z
    ∧ (i = (-1)%Z ↔ no_action_of userId (drawingHistory s))
    ∧ (i ≠ (-1)%Z → last_action_of userId (drawingHistory s) (Z.to_nat i)).
Proof.
  unfold findLastUserAction, observed, Code.findLastUserAction, mbind, Journal_bind,
    get_history.
  destruct (last_action_cases userId (drawingHistory s)) as [(j & Hj & ->) | [Hnone ->]].
  - exists (Z.of_nat j). split; [done|].
    pose proof Hj as [(c & Hc & _) _]. apply lookup_lt_Some in Hc.
    split_and!; [lia | lia | | ].
    + split; [lia|]. intros Hnone. by destruct (last_action_of_not_absent _ _ _ Hj).
    + intros _. by rewrite Nat2Z.id.
  - exists (-1)%Z. split; [done|]. split_and!; [lia | lia | done | done].
Qed.

(** ** Errors *)

(** X5. When a handler throws.  A [draw] throws when its sender has no
    record in the registry ([users.get(socket.id)] is [undefined]) or when
    its payload is [undefined] or [null]; an [erase] throws when its payload
    is [undefined] or [null]; a [cursorMove] throws when its sender is
    registered and its payload is [undefined] or [null] (an unregistered
    sender is turned away before the payload is read).  Nothing else
    throws: connection, undo, redo, clearCanvas and disconnect return in
    every state, and so does every event whose payload can be read, but for
    a draw from an unregistered socket. *)
Theorem when_handlers_throw (e : Event) (s : Server) :
  (∃ err, handle e s = Throws err)
  ↔ (∃ id payload now, e = EDraw id payload now
                       ∧ (jsmap_has id (users s) = false ∨ payload = Nullish))
    ∨ (∃ id now, e = EErase id Nullish now)
    ∨ (∃ id, e = ECursorMove id Nullish ∧ jsmap_has id (users s) = true).
Proof.
  split.
  - intros [err Herr]. pose proof (handle_cases e s) as Hcase. rewrite Herr in Hcase.
    inversion Hcase; subst.
    + left. eexists _, _, _. split; [done|]. left. unfold jsmap_has.
      by match goal with H : jsmap_get _ _ = None |- _ => rewrite H end.
    + left. eexists _, _, _. split; [done|]. by right.
    + right. left. by eexists _, _.
    + right. right. eexists. split; [done|]. unfold jsmap_has.
      by match goal with H : jsmap_get _ _ = Some _ |- _ => rewrite H end.
  - intros [(id & payload & now & -> & Hwhy) | [(id & now & ->) | (id & -> & Hhas)]]; simpl.
    + destruct (jsmap_get id (users s)) as [u|] eqn:Hu.
      * destruct Hwhy as [Hhas | ->].
        -- unfold jsmap_has in Hhas. by rewrite Hu in Hhas.
        -- eexists. by apply (on_draw_nullish _ _ _ u).
      * eexists. by apply on_draw_unregistered.
    + eexists. apply on_erase_nullish.
    + unfold jsmap_has in Hhas.
      destruct (jsmap_get id (users s)) as [u|] eqn:Hu; [|done].
      eexists. by apply (on_cursorMove_nullish _ _ u).
Qed.

(** ** Addressing *)

(** X6. A handler addresses its packets in three ways only: to everyone,
    to everyone but the socket whose event it is handling, or to that
    socket alone, and the last only for the [loadDrawingHistory] a
    connecting socket is sent.  No handler singles out a third socket, and
    no handler emits more than two packets. *)
Theorem packets_go_to_sender_others_or_all (e : Event) (s s' : Server) (out : list Packet) :
  handle e s = Returns tt s' out →
  Forall (addressed_for e) out ∧ length out ≤ 2.
Proof.
  intros Hh. handler_cases Hh; (split; [|simpl; lia]); repeat constructor.
  by eexists.
Qed.

(** X6 at work: what A's undo emits after A and B drew. *)
Lemma packets_go_to_sender_others_or_all_witness :
  ∃ s' out,
    handle (EUndo "A") (server after_two_strokes) = Returns tt s' out
    ∧ Forall (addressed_for (EUndo "A")) out
    ∧ out.*1 = [ToAll].
Proof.
  destruct (handle_returns (EUndo "A") (server after_two_strokes))
    as (s' & out & Hh); [done | done |].
  exists s', out. split; [exact Hh|].
  split; [exact (proj1 (packets_go_to_sender_others_or_all _ _ _ _ Hh))|].
  vm_compute in Hh. by injection Hh as _ <-.
Defined.

(** ** Running events one after another *)

Lemma step_returns (sys : System) (e : Event) (s' : Server) (out : list Packet) :
  enabled sys e = true → handle e (server sys) = Returns tt s' out →
  step sys e = Some (mkSystem (connected_during e (connected sys)) s', out).
Proof. intros Hen Hh. unfold step. by rewrite Hen, Hh. Qed.

Lemma run_cons (sys sys1 sys2 : System) (e : Event) (es : list Event)
    (out1 out2 : list Packet) :
  step sys e = Some (sys1, out1) → run sys1 es = Some (sys2, out2) →
  run sys (e :: es) = Some (sys2, out1 ++ out2).
Proof. intros Hstep Hrun. simpl. by rewrite Hstep, Hrun. Qed.

Lemma enabled_connected (sys : System) (e : Event) :
  is_join_or_leave e = false → socket_of e ∈ connected sys → enabled sys e = true.
Proof.
  intros He Hc. destruct e; try done; by apply bool_decide_eq_true_2.
Qed.

Lemma last_action_of_snoc (userId : SocketId) (history : list Command) (c : Command) :
  Cmd.userId c = userId → last_action_of userId (history ++ [c]) (length history).
Proof.
  intros Hu. split.
  - exists c. split; [|done]. by rewrite list_lookup_middle.
  - intros j c' Hj Hc'. apply lookup_lt_Some in Hc'. rewrite length_app in Hc'.
    simpl in Hc'. lia.
Qed.

Lemma delete_snoc {A : Type} (l : list A) (x : A) : delete (length l) (l ++ [x]) = l.
Proof. rewrite delete_middle. apply app_nil_r. Qed.

(** ** Undo after one's own stroke *)

(** X7. An undo right after one's own draw or erase (of a payload whose
    fields can be read) takes exactly that entry back: the server is in the
    state it was in before the stroke (everyone is told the old history),
    and a redo after that does not bring the stroke back, it changes
    nothing and emits nothing. *)
Theorem undo_reverts_own_stroke (sys : System) (socket_id : SocketId) :
  reachable sys → socket_id ∈ connected sys →
  (∀ data now, ∃ command,
     run sys [ EDraw socket_id (Fields data) now; EUndo socket_id; ERedo socket_id ] =
       Some (sys, [ (ToOthers socket_id, draw command);
                    (ToAll, undoAction socket_id (drawingHistory (server sys))) ]))
  ∧ (∀ data now, ∃ command,
       run sys [ EErase socket_id (Fields data) now; EUndo socket_id; ERedo socket_id ] =
         Some (sys, [ (ToOthers socket_id, erase command);
                      (ToAll, undoAction socket_id (drawingHistory (server sys))) ])).
Proof.
  intros Hr Hc. destruct (reachable_registered sys socket_id Hr Hc) as [u Hu].
  destruct sys as [conn [us h]]. simpl in Hu, Hc.
  assert (∀ c, Cmd.userId c = socket_id →
            step (mkSystem conn (mkServer us (h ++ [c]))) (EUndo socket_id) =
              Some (mkSystem conn (mkServer us h), [(ToAll, undoAction socket_id h)])) as Hundo.
  { intros c Hcu. rewrite (step_returns _ _ (mkServer us h) [(ToAll, undoAction socket_id h)]).
    - done.
    - by apply bool_decide_eq_true_2.
    - simpl. rewrite (on_undo_found _ _ (length h)) by (by apply last_action_of_snoc).
      simpl. by rewrite delete_snoc. }
  assert (run (mkSystem conn (mkServer us h)) [ERedo socket_id] =
            Some (mkSystem conn (mkServer us h), [])) as Hredo.
  { simpl. unfold step. simpl. by rewrite bool_decide_eq_true_2. }
  split; intros data now; eexists.
  - eapply (run_cons _ _ _ _ _ [_] [_]).
    + apply step_returns; [by apply bool_decide_eq_true_2|].
      simpl. by apply on_draw_registered.
    + simpl connected_during. eapply (run_cons _ _ _ _ _ [_] []); [by apply Hundo | done].
  - eapply (run_cons _ _ _ _ _ [_] [_]).
    + apply step_returns; [by apply bool_decide_eq_true_2|].
      simpl. apply on_erase_eq.
    + simpl connected_during. eapply (run_cons _ _ _ _ _ [_] []); [by apply Hundo | done].
Qed.

(** X7 at work: B draws a third stroke and takes it back. *)
Lemma undo_reverts_own_stroke_witness :
  reachable after_two_strokes ∧ "B" ∈ connected after_two_strokes
  ∧ ∃ sent,
      run after_two_strokes [ EDraw "B" (Fields stroke) 102; EUndo "B"; ERedo "B" ] =
        Some (after_two_strokes, sent)
      ∧ length sent = 2.
Proof.
  assert ("B" ∈ connected after_two_strokes) as Hc
    by apply list_elem_of_further, list_elem_of_here.
  split; [exact reachable_after_two_strokes|]. split; [exact Hc|].
  destruct (undo_reverts_own_stroke after_two_strokes "B" reachable_after_two_strokes Hc)
    as [Hdraw _].
  destruct (Hdraw stroke 102%Z) as [command Hrun].
  eexists. split; [exact Hrun | reflexivity].
Defined.

(** ** Undo and the other users *)

Lemma filter_delete_False {A : Type} (P : A → Prop) `{!∀ x, Decision (P x)}
    (l : list A) (i : nat) (x : A) :
  l !! i = Some x → ¬ P x → filter P (delete i l) = filter P l.
Proof.
  intros Hx Hn. rewrite delete_take_drop.
  rewrite <- (take_drop_middle l i x Hx) at 3.
  by rewrite !filter_app, filter_cons_False.
Qed.

Lemma filter_delete_True {A : Type} (P : A → Prop) `{!∀ x, Decision (P x)}
    (l : list A) (i : nat) (x : A) :
  l !! i = Some x → P x → length (filter P l) = S (length (filter P (delete i l))).
Proof.
  intros Hx Hp. rewrite delete_take_drop.
  rewrite <- (take_drop_middle l i x Hx) at 1.
  rewrite !filter_app, filter_cons_True by done. rewrite !length_app. simpl. lia.
Qed.

Lemma no_action_of_entries (userId : SocketId) (history : list Command) :
  no_action_of userId history ↔ entries_of userId history = [].
Proof.
  unfold no_action_of, entries_of. split.
  - intros Hnone. induction history as [|c h IH]; [done|].
    rewrite filter_cons_False by (apply Hnone, list_elem_of_here).
    apply IH. intros c' Hc'. by apply Hnone, list_elem_of_further.
  - intros Hnil c Hc Hu. by apply (filter_nil_not_elem_of _ _ c Hnil).
Qed.

Lemma no_action_of_others (userId : SocketId) (history : list Command) :
  no_action_of userId history → entries_of_others userId history = history.
Proof.
  unfold no_action_of, entries_of_others. intros Hnone.
  induction history as [|c h IH]; [done|].
  rewrite filter_cons_True by (apply Hnone, list_elem_of_here).
  f_equal. apply IH. intros c' Hc'. by apply Hnone, list_elem_of_further.
Qed.

(** X8. An undo never touches what the others drew: the entries of every
    other user are the same, in the same order, before and after; the
    requester has one entry fewer (or still none); the registry is as it
    was. *)
Theorem undo_spares_other_users (s : Server) (socket_id : SocketId) :
  ∃ s' out,
    on_undo socket_id s = Returns tt s' out
    ∧ users s' = users s
    ∧ entries_of_others socket_id (drawingHistory s') =
        entries_of_others socket_id (drawingHistory s)
    ∧ length (entries_of socket_id (drawingHistory s')) =
        pred (length (entries_of socket_id (drawingHistory s)))
    ∧ drawingHistory s' `sublist_of` drawingHistory s.
Proof.
  destruct (last_action_cases socket_id (drawingHistory s)) as [(i & Hi & _) | [Hnone _]].
  - eexists _, _. split; [by apply on_undo_found|]. simpl.
    destruct Hi as [(c & Hc & Hu) _]. split_and!.
    + done.
    + apply (filter_delete_False _ _ _ c); [done | intros Hne; by apply Hne].
    + unfold entries_of. by rewrite (filter_delete_True _ _ i c Hc Hu).
    + apply sublist_delete.
  - eexists _, _. split; [by apply on_undo_absent|]. split_and!; [done | done | | done].
    apply no_action_of_entries in Hnone. by rewrite Hnone.
Qed.

(** X9. Undo can be repeated until nothing of one's own is left: after as
    many undos as the requester has entries, the history is exactly the
    others' entries in their order, one [undoAction] went out per undo, and
    one more undo changes nothing and emits nothing. *)
Theorem undo_until_nothing_left (sys : System) (socket_id : SocketId) :
  socket_id ∈ connected sys →
  ∃ sys' sent,
    run sys (replicate (length (entries_of socket_id (drawingHistory (server sys))))
               (EUndo socket_id)) = Some (sys', sent)
    ∧ connected sys' = connected sys
    ∧ users (server sys') = users (server sys)
    ∧ drawingHistory (server sys') = entries_of_others socket_id (drawingHistory (server sys))
    ∧ length sent = length (entries_of socket_id (drawingHistory (server sys)))
    ∧ Forall (λ p, p.1 = ToAll ∧ ∃ history, p.2 = undoAction socket_id history) sent
    ∧ step sys' (EUndo socket_id) = Some (sys', []).
Proof.
  remember (length (entries_of socket_id (drawingHistory (server sys)))) as n eqn:Hn.
  revert sys Hn. induction n as [|n IH]; intros sys Hn Hc.
  - symmetry in Hn. apply length_zero_iff_nil, no_action_of_entries in Hn.
    exists sys, []. split_and!; try done.
    + by rewrite no_action_of_others.
    + rewrite (step_returns _ _ (server sys) []).
      * by destruct sys.
      * by apply bool_decide_eq_true_2.
      * by apply on_undo_absent.
  - destruct (last_action_cases socket_id (drawingHistory (server sys)))
      as [(i & Hi & _) | [Hnone _]].
    + pose proof Hi as [(c & Hci & Hcu) _].
      pose proof (step_returns sys (EUndo socket_id) _ _
                    (bool_decide_eq_true_2 _ Hc) (on_undo_found _ _ _ Hi)) as Hstep.
      simpl connected_during in Hstep.
      destruct (IH (mkSystem (connected sys)
                      (mkServer (users (server sys)) (delete i (drawingHistory (server sys))))))
        as (sys' & sent & Hrun & Hconn & Hus & Hh & Hlen & Hall & Hmore).
      * simpl. unfold entries_of in *.
        rewrite (filter_delete_True _ _ i c Hci Hcu) in Hn. lia.
      * done.
      * exists sys', ([(ToAll, undoAction socket_id (delete i (drawingHistory (server sys))))]
                        ++ sent).
        split_and!; try done.
        -- by apply (run_cons _ _ _ _ _ _ _ Hstep).
        -- rewrite Hh. simpl. apply (filter_delete_False _ _ _ c); [done | intros Hne; by apply Hne].
        -- simpl. by rewrite Hlen.
        -- constructor; [|done]. split; [done | by eexists].
    + apply no_action_of_entries in Hnone. by rewrite Hnone in Hn.
Qed.

(** X9 at work: B has one entry after A and B drew. *)
Lemma undo_until_nothing_left_witness :
  "B" ∈ connected after_two_strokes
  ∧ ∃ sys' sent,
      run after_two_strokes [EUndo "B"] = Some (sys', sent)
      ∧ Cmd.userId <$> drawingHistory (server sys') = ["A"]
      ∧ step sys' (EUndo "B") = Some (sys', []).
Proof.
  assert ("B" ∈ connected after_two_strokes) as Hc
    by apply list_elem_of_further, list_elem_of_here.
  split; [exact Hc|].
  destruct (undo_until_nothing_left after_two_strokes "B" Hc)
    as (sys' & sent & Hrun & _ & _ & Hh & _ & _ & Hmore).
  exists sys', sent. split; [exact Hrun|]. split; [|exact Hmore].
  rewrite Hh. reflexivity.
Defined.

(** ** Joining and leaving *)

Lemma jsmap_delete_set_fresh {V : Type} (m : JsMap V) (k : string) (v : V) :
  jsmap_has k m = false → jsmap_delete k (jsmap_set k v m) = m.
Proof.
  unfold jsmap_has. induction m as [|[k0 v0] m IH]; simpl.
  - by rewrite bool_decide_eq_true_2.
  - case_bool_decide as Hk; [done|]. intros Hget. simpl.
    rewrite bool_decide_eq_false_2 by done. by rewrite IH.
Qed.

Lemma filter_ne_fresh (conn : list SocketId) (socket_id : SocketId) :
  socket_id ∉ conn → filter (λ c, c ≠ socket_id) (conn ++ [socket_id]) = conn.
Proof.
  intros Hfresh. rewrite filter_app.
  rewrite filter_cons_False by (intros Hne; by apply Hne). rewrite app_nil_r.
  induction conn as [|c conn IH]; [done|].
  apply not_elem_of_cons in Hfresh as [Hne Hfresh].
  rewrite filter_cons_True by done. by rewrite IH.
Qed.

(** X10. A socket that connects and disconnects right away leaves no
    trace: the server is back in the very state it was in (same registry
    in the same order, same history), and the last thing everyone is sent
    is the user list as it was before. *)
Theorem join_then_leave_restores_state (sys : System) (socket_id : SocketId) :
  reachable sys → socket_id ∉ connected sys →
  ∃ sent,
    run sys [ EConnection socket_id; EDisconnect socket_id ] = Some (sys, sent)
    ∧ last sent = Some (ToAll, userListUpdate (user_list (users (server sys)))).
Proof.
  intros Hr Hfresh.
  assert (jsmap_has socket_id (users (server sys)) = false) as Hhas.
  { apply jsmap_has_false. by rewrite (proj1 (reachable_registry sys Hr)). }
  pose proof (step_returns sys (EConnection socket_id) _ _
                (bool_decide_eq_true_2 _ Hfresh) (on_connection_eq _ _)) as Hjoin.
  cbv zeta in Hjoin. simpl connected_during in Hjoin.
  match type of Hjoin with _ = Some (?sys1, _) => set (joined := sys1) in * end.
  assert (enabled joined (EDisconnect socket_id) = true) as Hen.
  { apply bool_decide_eq_true_2. simpl. apply elem_of_app. right.
    by apply list_elem_of_singleton. }
  assert (step joined (EDisconnect socket_id) =
            Some (sys, [ (ToAll, cursorRemoved socket_id);
                         (ToAll, userListUpdate (user_list (users (server sys)))) ]))
    as Hleave.
  { rewrite (step_returns _ _ _ _ Hen (on_disconnect_eq _ _)). cbv zeta. simpl.
    rewrite jsmap_delete_set_fresh, filter_ne_fresh by done. by destruct sys as [? []]. }
  eexists. split.
  - eapply run_cons; [exact Hjoin|]. eapply run_cons; [exact Hleave | reflexivity].
  - done.
Qed.

(** X10 at work: C looks in and leaves after A and B drew. *)
Lemma join_then_leave_restores_state_witness :
  reachable after_two_strokes ∧ ("C" ∉ connected after_two_strokes)
  ∧ ∃ sent,
      run after_two_strokes [ EConnection "C"; EDisconnect "C" ] = Some (after_two_strokes, sent)
      ∧ length sent = 4.
Proof.
  assert ("C" ∉ connected after_two_strokes) as Hfresh.
  { simpl. rewrite !not_elem_of_cons. split_and!; [done | done | apply not_elem_of_nil]. }
  split; [exact reachable_after_two_strokes|]. split; [exact Hfresh|].
  destruct (join_then_leave_restores_state after_two_strokes "C"
              reachable_after_two_strokes Hfresh) as (sent & Hrun & _).
  exists sent. split; [exact Hrun|].
  vm_compute in Hrun. by injection Hrun as <-.
Defined.

(** ** Cursor moves *)

(** X11. The last cursor position wins: once a [cursorMove] of a socket
    has been handled, the next one from that socket leaves the state and
    sends the packet (or throws the error) it would have without the first;
    in particular, for two payloads whose fields can be read, both moves
    are handled and the outcome is that of the second alone. *)
Theorem cursorMove_last_write_wins (s : Server) (socket_id : SocketId)
    (first second : Payload CursorData.t) :
  (∀ s1 out1, on_cursorMove socket_id first s = Returns tt s1 out1 →
     on_cursorMove socket_id second s1 = on_cursorMove socket_id second s)
  ∧ (∀ d1 d2, first = Fields d1 → second = Fields d2 →
       ∃ s1 out1 s2 out2,
         on_cursorMove socket_id first s = Returns tt s1 out1
         ∧ on_cursorMove socket_id second s1 = Returns tt s2 out2
         ∧ on_cursorMove socket_id second s = Returns tt s2 out2).
Proof.
  assert (∀ d1 u, jsmap_get socket_id (users s) = Some u →
            on_cursorMove socket_id second
              (mkServer (jsmap_update (move_cursor d1) socket_id (users s)) (drawingHistory s))
            = on_cursorMove socket_id second s) as Hsame.
  { intros d1 u Hu.
    assert (jsmap_get socket_id (jsmap_update (move_cursor d1) socket_id (users s)) =
              Some (move_cursor d1 u)) as Hu1
      by (by rewrite jsmap_get_update_eq, Hu).
    destruct second as [|d2].
    - rewrite (on_cursorMove_nullish _ (mkServer _ _) _ Hu1).
      by rewrite (on_cursorMove_nullish _ _ _ Hu).
    - rewrite (on_cursorMove_registered _ _ (mkServer _ _) _ Hu1).
      rewrite (on_cursorMove_registered _ _ _ _ Hu). simpl.
      rewrite jsmap_update_update. reflexivity. }
  split.
  - intros s1 out1 Hfirst.
    destruct (jsmap_get socket_id (users s)) as [u|] eqn:Hu.
    + destruct first as [|d1].
      * by rewrite (on_cursorMove_nullish _ _ _ Hu) in Hfirst.
      * rewrite (on_cursorMove_registered _ _ _ _ Hu) in Hfirst.
        injection Hfirst as <- _. by apply (Hsame d1 u).
    + assert (jsmap_has socket_id (users s) = false) as Hh by (unfold jsmap_has; by rewrite Hu).
      rewrite (on_cursorMove_unregistered _ _ _ Hh) in Hfirst. by injection Hfirst as <- _.
  - intros d1 d2 -> ->.
    destruct (jsmap_get socket_id (users s)) as [u|] eqn:Hu.
    + eexists _, _, _, _. split; [by apply on_cursorMove_registered|].
      rewrite (Hsame d1 u eq_refl). split; by apply on_cursorMove_registered.
    + assert (jsmap_has socket_id (users s) = false) as Hh by (unfold jsmap_has; by rewrite Hu).
      exists s, [], s, [].
      by rewrite !(on_cursorMove_unregistered _ _ _ Hh).
Qed.

(** X11 at work: B moves its cursor twice. *)
Lemma cursorMove_last_write_wins_witness :
  ∃ s1 out1 s2 out2,
    on_cursorMove "B" (Fields (CursorData.mk (JNumber 1) (JNumber 2))) (server after_two_strokes)
      = Returns tt s1 out1
    ∧ on_cursorMove "B" (Fields pointer) s1 = Returns tt s2 out2
    ∧ on_cursorMove "B" (Fields pointer) (server after_two_strokes) = Returns tt s2 out2
    ∧ jsmap_get "B" (users s2) =
        Some (User.mk "B" (JString "#4ECDC4") "User2" (JNumber 5) (JNumber 7)).
Proof.
  destruct (cursorMove_last_write_wins (server after_two_strokes) "B"
              (Fields (CursorData.mk (JNumber 1) (JNumber 2))) (Fields pointer))
    as [_ Hboth].
  destruct (Hboth _ _ eq_refl eq_refl) as (s1 & out1 & s2 & out2 & H1 & H2 & H3).
  exists s1, out1, s2, out2. split; [exact H1|]. split; [exact H2|]. split; [exact H3|].
  vm_compute in H3. by injection H3 as <- _.
Defined.

(** ** Timestamps *)

Lemma StronglySorted_sublist {A : Type} (R : A → A → Prop) (l k : list A) :
  l `sublist_of` k → StronglySorted R k → StronglySorted R l.
Proof.
  induction 1 as [|x l k Hsub IH|x l k Hsub IH]; [done| |].
  - rewrite !StronglySorted_cons. intros [Hx Hk]. split; [|by apply IH].
    rewrite Forall_forall in *. intros y Hy. apply Hx.
    by apply (sublist_subseteq _ _ Hsub).
  - rewrite StronglySorted_cons. intros [_ Hk]. by apply IH.
Qed.

Lemma clock_cons (e : Event) (es : list Event) : clock (e :: es) = clock [e] ++ clock es.
Proof. by destruct e. Qed.

Lemma run_clock_order (es : list Event) (sys sys' : System) (sent : list Packet) :
  run sys es = Some (sys', sent) →
  StronglySorted Z.le ((Cmd.timestamp <$> drawingHistory (server sys)) ++ clock es) →
  StronglySorted Z.le (Cmd.timestamp <$> drawingHistory (server sys')).
Proof.
  revert sys sent. induction es as [|e es IH]; intros sys sent.
  - simpl. intros [= <- _]. by rewrite app_nil_r.
  - simpl run. destruct (step sys e) as [[sys1 out1]|] eqn:Hstep; [|done].
    destruct (run sys1 es) as [[sys2 out2]|] eqn:Hrun; [|done].
    intros [= <- _] Hsorted. apply (IH _ _ Hrun).
    apply step_inv in Hstep as (_ & Hh & _).
    rewrite clock_cons in Hsorted.
    destruct (handle_history_sublist _ _ _ _ Hh)
      as [(c & -> & now & Hnow & Hclock) | [Hsub Hclock]]; rewrite Hclock in Hsorted.
    + rewrite fmap_app. simpl. rewrite Hnow. by rewrite <- app_assoc.
    + simpl in Hsorted. eapply StronglySorted_sublist; [|exact Hsorted].
      apply sublist_app; [|done]. by apply fmap_sublist.
Qed.

(** X12. If the clock never runs backwards, the history is in timestamp
    order: when the values [Date.now()] returned to the draw and erase
    handlers are non-decreasing, the timestamps of the history are
    non-decreasing from first entry to last, after any sequence of events
    (appends go to the end, undo and clear only take entries out). *)
Theorem history_in_timestamp_order (es : list Event) (sys : System) (sent : list Packet) :
  run boot es = Some (sys, sent) →
  StronglySorted Z.le (clock es) →
  StronglySorted Z.le (Cmd.timestamp <$> drawingHistory (server sys)).
Proof. intros Hrun Hclock. by apply (run_clock_order es boot sys sent Hrun). Qed.

(** X12 at work, on the run in which A draws at 100 and B at 101. *)
Lemma history_in_timestamp_order_witness :
  ∃ sent,
    run boot two_strokes = Some (after_two_strokes, sent)
    ∧ StronglySorted Z.le (clock two_strokes)
    ∧ StronglySorted Z.le (Cmd.timestamp <$> drawingHistory (server after_two_strokes)).
Proof.
  destruct run_two_strokes as [sent Hrun].
  assert (StronglySorted Z.le (clock two_strokes)) as Hclock.
  { repeat constructor. simpl. lia. }
  exists sent. split; [exact Hrun|]. split; [exact Hclock|].
  exact (history_in_timestamp_order two_strokes after_two_strokes sent Hrun Hclock).
Defined.

(** ** Growth of the history *)

(** X13. The history has no cap: whatever its length, each of [n] further
    erase events from a connected socket, with a payload whose fields can
    be read, is handled and appended, so the history is [n] entries longer
    afterwards, for every [n]. *)
Theorem history_has_no_cap (n : nat) (sys : System) (socket_id : SocketId)
    (data : EraseData.t) (now : Z) :
  socket_id ∈ connected sys →
  ∃ sys' sent,
    run sys (replicate n (EErase socket_id (Fields data) now)) = Some (sys', sent)
    ∧ length (drawingHistory (server sys')) = length (drawingHistory (server sys)) + n
    ∧ connected sys' = connected sys
    ∧ users (server sys') = users (server sys).
Proof.
  revert sys. induction n as [|n IH]; intros sys Hc.
  - exists sys, []. split_and!; [done | simpl; lia | done | done].
  - pose proof (step_returns sys (EErase socket_id (Fields data) now) _ _
                  (bool_decide_eq_true_2 _ Hc) (on_erase_eq _ _ _ _)) as Hstep.
    cbv zeta in Hstep. simpl connected_during in Hstep.
    match type of Hstep with _ = Some (?sys1, _) =>
      destruct (IH sys1 Hc) as (sys' & sent & Hrun & Hlen & Hconn & Hus)
    end.
    eexists sys', _. split; [eapply run_cons; [exact Hstep | exact Hrun]|].
    split_and!; [|done|done].
    rewrite Hlen. simpl. rewrite length_app. simpl. lia.
Qed.

(** X13 at work: five erases by A after A and B drew. *)
Lemma history_has_no_cap_witness :
  "A" ∈ connected after_two_strokes
  ∧ ∃ sys' sent,
      run after_two_strokes (replicate 5 (EErase "A" (Fields rub) 103)) = Some (sys', sent)
      ∧ length (drawingHistory (server sys')) = 7.
Proof.
  assert ("A" ∈ connected after_two_strokes) as Hc by apply list_elem_of_here.
  split; [exact Hc|].
  destruct (history_has_no_cap 5 after_two_strokes "A" rub 103%Z Hc)
    as (sys' & sent & Hrun & Hlen & _).
  exists sys', sent. split; [exact Hrun | exact Hlen].
Defined.

Lemma run_history_length (es : list Event) (sys sys' : System) (sent : list Packet) :
  run sys es = Some (sys', sent) →
  length (drawingHistory (server sys')) ≤
    length (drawingHistory (server sys)) + length (clock es).
Proof.
  revert sys sent. induction es as [|e es IH]; intros sys sent.
  - simpl. intros [= <- _]. lia.
  - simpl run. destruct (step sys e) as [[sys1 out1]|] eqn:Hstep; [|done].
    destruct (run sys1 es) as [[sys2 out2]|] eqn:Hrun; [|done].
    intros [= <- _]. specialize (IH _ _ Hrun).
    apply step_inv in Hstep as (_ & Hh & _).
    rewrite clock_cons, length_app.
    destruct (handle_history_sublist _ _ _ _ Hh)
      as [(c & Hc & now & _ & Hclock) | [Hsub Hclock]]; rewrite Hclock.
    + rewrite Hc, length_app in IH. simpl in *. lia.
    + apply sublist_length in Hsub. simpl. lia.
Qed.

Lemma handle_append_packet (e : Event) (s s' : Server) (out : list Packet) :
  handle e s = Returns tt s' out →
  (∃ c, drawingHistory s' = drawingHistory s ++ [c] ∧ out = [packet_of c])
  ∨ drawingHistory s' `sublist_of` drawingHistory s.
Proof.
  intros Hh. handler_cases Hh; simpl;
    try (by right); try (left; by eexists).
  - right. apply sublist_delete.
  - right. apply sublist_nil_l.
Qed.

Lemma run_history_sent (es : list Event) (sys sys' : System) (sent prior : list Packet) :
  run sys es = Some (sys', sent) →
  (∀ c, c ∈ drawingHistory (server sys) → packet_of c ∈ prior) →
  ∀ c, c ∈ drawingHistory (server sys') → packet_of c ∈ prior ++ sent.
Proof.
  revert sys sent prior. induction es as [|e es IH]; intros sys sent prior.
  - simpl. intros [= <- <-] Hprior c Hc. rewrite app_nil_r. by apply Hprior.
  - simpl run. destruct (step sys e) as [[sys1 out1]|] eqn:Hstep; [|done].
    destruct (run sys1 es) as [[sys2 out2]|] eqn:Hrun; [|done].
    intros [= <- <-] Hprior. rewrite app_assoc. apply (IH _ _ _ Hrun).
    apply step_inv in Hstep as (_ & Hh & _).
    intros c Hc. apply elem_of_app.
    destruct (handle_append_packet _ _ _ _ Hh) as [(c' & Hc' & ->) | Hsub].
    + rewrite Hc' in Hc. apply elem_of_app in Hc as [Hc | Hc].
      * left. by apply Hprior.
      * right. apply list_elem_of_singleton in Hc as ->. apply list_elem_of_here.
    + left. apply Hprior. by apply (sublist_subseteq _ _ Hsub).
Qed.

(** X14. Entries only come from draw and erase events, one each: after any
    sequence of events from start-up the history is no longer than the
    number of draw and erase events handled, and every entry in it went
    out earlier, as it stands, as the payload of a [draw] or [erase]
    packet addressed to the others. *)
Theorem history_comes_from_strokes (es : list Event) (sys : System) (sent : list Packet) :
  run boot es = Some (sys, sent) →
  length (drawingHistory (server sys)) ≤ length (clock es)
  ∧ (∀ c, c ∈ drawingHistory (server sys) → packet_of c ∈ sent).
Proof.
  intros Hrun. split; [apply (run_history_length es boot sys sent Hrun)|].
  apply (run_history_sent es boot sys sent [] Hrun).
  intros c Hc. by apply elem_of_nil in Hc.
Qed.

(** X14 at work, on the run in which A and B each draw once. *)
Lemma history_comes_from_strokes_witness :
  ∃ sent,
    run boot two_strokes = Some (after_two_strokes, sent)
    ∧ length (drawingHistory (server after_two_strokes)) ≤ 2
    ∧ Forall (λ c, packet_of c ∈ sent) (drawingHistory (server after_two_strokes)).
Proof.
  destruct run_two_strokes as [sent Hrun].
  exists sent. split; [exact Hrun|].
  destruct (history_comes_from_strokes two_strokes after_two_strokes sent Hrun)
    as [Hlen Hsent].
  split; [exact Hlen|]. apply Forall_forall. exact Hsent.
Defined.
